(** * Livability Score API: a shallow embedding of [main.py]

    The service has two functions and one endpoint:
    - [calculate_livability_score] maps two Python floats to a label and a
      number of habitable years;
    - [ask_gemini_analysis] relays a prompt to an external service and
      extracts a nested text field from the JSON answer;
    - [get_livability_score] is the GET handler, guarded by the range
      constraints declared on its query parameters.

    Python floats are IEEE 754 binary64 numbers; they are modelled by the
    standard library's [spec_float] at precision 53 and maximal exponent
    1024, with its round-to-nearest-even operations. *)

From Stdlib Require Import ZArith QArith Qpower Lia Lqa Bool List String.
From Stdlib Require Import Floats.SpecFloat.
From stdpp Require Import gmap strings.
Import ListNotations.

#[local] Set Warnings "-register-all".
#[local] Open Scope Z_scope.

(** ** Python floats *)

Module Float.

Definition prec : Z := 53.
Definition emax : Z := 1024.

Definition float : Type := spec_float.

(** The float nearest to an integer ([float(z)], also the implicit
    conversion of an [int] operand in mixed arithmetic). The integers
    of this program (0, 5, 40, 70, 100) are converted exactly. *)
Definition of_int (z : Z) : float := binary_normalize prec emax z 0 false.

Definition div (x y : float) : float := SFdiv prec emax x y.
Definition mul (x y : float) : float := SFmul prec emax x y.
Definition add (x y : float) : float := SFadd prec emax x y.
Definition sub (x y : float) : float := SFsub prec emax x y.

(** The four comparisons of C doubles; all are [false] on a NaN. *)
Definition lt (x y : float) : bool := SFltb x y.
Definition le (x y : float) : bool := SFleb x y.
Definition gt (x y : float) : bool := SFltb y x.
Definition ge (x y : float) : bool := SFleb y x.
Definition eqb (x y : float) : bool := SFeqb x y.

Definition is_nan (x : float) : bool :=
  match x with S754_nan => true | _ => false end.

(** The binary64 numbers proper: canonical mantissa, exponent in range. *)
Definition valid (x : float) : bool := valid_binary prec emax x.

(** The literal [0.5]. *)
Definition half : float := S754_finite false 4503599627370496 (-53).

Definition nan : float := S754_nan.
Definition pinf : float := S754_infinity false.
Definition ninf : float := S754_infinity true.

End Float.

Abbreviation float := Float.float.

(** ** Python numbers and the builtins [max] and [min]

    [max(solar / 5 * 100, 0)] mixes a float with an [int]: the builtin
    returns one of its arguments unchanged, so the result is an [int]
    when the integer bound wins. *)

Inductive num :=
  | NInt (z : Z)
  | NFloat (f : float).

Definition to_float (a : num) : float :=
  match a with
  | NInt z => Float.of_int z
  | NFloat f => f
  end.

(** [a < b] and [a > b] on numbers. Two ints compare as integers; a
    float and a (small) int compare as floats. *)
Definition num_lt (a b : num) : bool :=
  match a, b with
  | NInt x, NInt y => x <? y
  | _, _ => Float.lt (to_float a) (to_float b)
  end.

Definition num_gt (a b : num) : bool := num_lt b a.

(** [max(a, b)]: keeps [a] unless [b > a]. *)
Definition py_max (a b : num) : num := if num_gt b a then b else a.

(** [min(a, b)]: keeps [a] unless [b < a]. *)
Definition py_min (a b : num) : num := if num_lt b a then b else a.

(** ** The score calculator *)

(** [solar_score = min(max(solar / 5 * 100, 0), 100)] *)
Definition solar_score (solar : float) : num :=
  py_min
    (py_max (NFloat (Float.mul (Float.div solar (Float.of_int 5)) (Float.of_int 100)))
            (NInt 0))
    (NInt 100).

(** [aqi_score = max(0, 100 - aqi)] *)
Definition aqi_score (aqi : float) : num :=
  py_max (NInt 0) (NFloat (Float.sub (Float.of_int 100) aqi)).

(** [combined_score = 0.5 * solar_score + 0.5 * aqi_score] *)
Definition combined_score (solar aqi : float) : float :=
  Float.add (Float.mul Float.half (to_float (solar_score solar)))
            (Float.mul Float.half (to_float (aqi_score aqi))).

(** The [if]/[elif]/[else] chain on the combined score. *)
Definition classify (combined : float) : string * Z :=
  if Float.ge combined (Float.of_int 70) then ("High"%string, 80)
  else if Float.ge combined (Float.of_int 40) then ("Medium"%string, 50)
  else ("Low"%string, 20).

Definition calculate_livability_score (solar aqi : float) : string * Z :=
  classify (combined_score solar aqi).

(** ** The reference algorithm of the specification

    [clamp x lo hi] is the usual three-way clamp: [lo] below the range,
    [hi] above it, [x] otherwise. *)

Definition clamp (x lo hi : float) : float :=
  if Float.lt x lo then lo else if Float.gt x hi then hi else x.

(** The larger of zero and [x]; zero when [x] does not exceed it. *)
Definition max_with_zero (x : float) : float :=
  if Float.gt x (Float.of_int 0) then x else Float.of_int 0.

Definition spec_solar_score (solar : float) : float :=
  clamp (Float.mul (Float.div solar (Float.of_int 5)) (Float.of_int 100))
        (Float.of_int 0) (Float.of_int 100).

Definition spec_aqi_score (aqi : float) : float :=
  max_with_zero (Float.sub (Float.of_int 100) aqi).

Definition spec_combined (solar aqi : float) : float :=
  Float.add (Float.mul Float.half (spec_solar_score solar))
            (Float.mul Float.half (spec_aqi_score aqi)).

(** ** Python values as produced by [response.json()] *)

Inductive pyval :=
  | PNone
  | PBool (b : bool)
  | PInt (z : Z)
  | PFloat (f : float)
  | PStr (s : string)
  | PList (l : list pyval)
  | PDict (d : gmap string pyval).

Definition type_name (v : pyval) : string :=
  match v with
  | PNone => "NoneType"
  | PBool _ => "bool"
  | PInt _ => "int"
  | PFloat _ => "float"
  | PStr _ => "str"
  | PList _ => "list"
  | PDict _ => "dict"
  end.

(** Whether a value is a [str]. *)
Definition is_str (v : pyval) : bool :=
  match v with PStr _ => true | _ => false end.

(** ** Exceptions

    Every exception met by the code derives from [Exception]; the handler
    only uses [str(e)], so an exception is its message. *)

Definition exn : Type := string.

Definition result (A : Type) : Type := A + exn.

Definition ret {A} (a : A) : result A := inl a.
Definition raise {A} (e : exn) : result A := inr e.

Definition bind {A B} (c : result A) (k : A -> result B) : result B :=
  match c with
  | inl a => k a
  | inr e => inr e
  end.

Notation "x <~ c ; k" := (bind c (fun x => k))
  (at level 20, c at level 100, k at level 200, only parsing).

(** [v.get(key, default)]: a method of dictionaries only. *)
Definition py_get (v : pyval) (key : string) (dflt : pyval) : result pyval :=
  match v with
  | PDict d => ret (default dflt (d !! key))
  | _ => raise ("'" +:+ type_name v +:+ "' object has no attribute 'get'")
  end.

(** [v[0]] *)
Definition py_item0 (v : pyval) : result pyval :=
  match v with
  | PList (x :: _) => ret x
  | PList [] => raise "list index out of range"
  | PStr (String c _) => ret (PStr (String c EmptyString))
  | PStr EmptyString => raise "string index out of range"
  | PDict _ => raise "0"
  | _ => raise ("'" +:+ type_name v +:+ "' object is not subscriptable")
  end.

(** ** The outbound call *)

Record request := {
  req_url : string;
  req_headers : gmap string string;
  req_json : pyval;
  req_timeout : float
}.

(** What the HTTP client can answer to one POST. A transport failure
    (connection error, timeout, ...) raises inside [client.post]; a
    response carries its status code, the message [raise_for_status]
    would raise with, and what [response.json()] gives. *)
Record response := {
  status_code : Z;
  status_error : exn;
  json_body : result pyval
}.

Inductive post_outcome :=
  | PostRaised (e : exn)
  | PostResponse (r : response).

(** The process environment and the network, as seen by one request. *)
Record world := {
  environ : gmap string string;
  network : request -> post_outcome
}.

Definition client_post (w : world) (rq : request) : result response :=
  match network w rq with
  | PostRaised e => raise e
  | PostResponse r => ret r
  end.

(** [response.raise_for_status()]: raises unless the status is 2xx. *)
Definition raise_for_status (r : response) : result unit :=
  if (200 <=? status_code r) && (status_code r <=? 299) then ret tt
  else raise (status_error r).

(** Truth value of an optional string ([None] and [""] are false). *)
Definition truthy (s : option string) : bool :=
  match s with
  | None | Some EmptyString => false
  | Some _ => true
  end.

Definition no_key_message : string :=
  "GEMINI_API_KEY not set. Skipping AI analysis.".

Definition no_analysis_message : string := "No AI analysis returned.".

Definition failure_prefix : string := "Failed to get Gemini AI analysis: ".

Definition gemini_url : string :=
  "https://generativelanguage.googleapis.com/v1beta/models/gemini-2.0-flash:generateContent".

Definition newline : string := String (Ascii.ascii_of_nat 10) EmptyString.

(** The message of the error raised when the reply model refuses a
    value. *)
Definition validation_error : exn := "1 validation error for LivabilityResult".

Section Service.

(** [str_of_float] is Python's conversion of a float to text, used by
    the f-string of the prompt. *)
Variable str_of_float : float -> string.

Definition prompt_text (lat lon solar aqi : float) (image_base64 : option string)
  : string :=
  let base :=
    "Location: lat=" +:+ str_of_float lat +:+ ", lon=" +:+ str_of_float lon +:+ newline
    +:+ "Solar radiation score: " +:+ str_of_float solar +:+ newline
    +:+ "Air quality index: " +:+ str_of_float aqi +:+ newline
    +:+ "Explain the livability of this location based on these scores, "
    +:+ "and suggest interventions or improvements. " in
  if truthy image_base64
  then base +:+ "Analyze this image together with the scores." +:+ newline
  else base.

Definition payload (prompt : string) (image_base64 : option string) : pyval :=
  let text_part := PDict {[ "text" := PStr prompt ]} in
  let image_parts :=
    match image_base64 with
    | Some (String c s) =>
        [PDict {[ "inline_data" :=
           PDict (<[ "mime_type" := PStr "image/jpeg" ]>
                    {[ "data" := PStr (String c s) ]}) ]}]
    | _ => []
    end in
  PDict {[ "contents" := PList [PDict {[ "parts" := PList (text_part :: image_parts) ]}] ]}.

Definition build_request (key : string) (lat lon solar aqi : float)
    (image_base64 : option string) : request :=
  {| req_url := gemini_url +:+ "?key=" +:+ key;
     req_headers := {[ "Content-Type" := "application/json" ]};
     req_json := payload (prompt_text lat lon solar aqi image_base64) image_base64;
     req_timeout := Float.of_int 30 |}.

(** The [return] line of the [try] block: the extraction of
    [candidates[0].content.parts[0].text] from the decoded document. *)
Definition extract_text (gemini_data : pyval) : result pyval :=
  candidates <~ py_get gemini_data "candidates" (PList [PDict ∅]) ;
  candidate <~ py_item0 candidates ;
  content <~ py_get candidate "content" (PDict ∅) ;
  parts <~ py_get content "parts" (PList [PDict ∅]) ;
  part <~ py_item0 parts ;
  py_get part "text" (PStr no_analysis_message).

(** The body of the [try] block. *)
Definition try_block (w : world) (rq : request) : result pyval :=
  response <~ client_post w rq ;
  _ <~ raise_for_status response ;
  gemini_data <~ json_body response ;
  extract_text gemini_data.

(** [ask_gemini_analysis] returns its value together with the list of
    requests it sent. *)
Definition ask_gemini_analysis (w : world) (lat lon solar aqi : float)
    (image_base64 : option string) : pyval * list request :=
  match environ w !! "GEMINI_API_KEY" with
  | None | Some EmptyString => (PStr no_key_message, [])
  | Some gemini_api_key =>
      let rq := build_request gemini_api_key lat lon solar aqi image_base64 in
      match try_block w rq with
      | inl v => (v, [rq])
      | inr e => (PStr (failure_prefix +:+ e), [rq])
      end
  end.

(** ** The endpoint *)

(** The reply model, with the declared types of its fields. *)
Record LivabilityResult := {
  location_latitude : float;
  location_longitude : float;
  solar_radiation_score : float;
  air_quality_index : float;
  calculated_livability_score : string;
  estimated_habitable_years : Z;
  gemini_analysis : string;
  data_source : string
}.

(** [str_of_scalar] is what the validation of a field declared [str]
    makes of a number or of a boolean: pydantic 1 converts it with
    [str], pydantic 2 refuses it ([None]). *)
Variable str_of_scalar : pyval -> option string.

(** The validation of a value against a field declared [str]: a string
    passes; [None], a list and a dict are refused. *)
Definition validate_str (v : pyval) : result string :=
  match v with
  | PStr s => ret s
  | PBool _ | PInt _ | PFloat _ =>
      match str_of_scalar v with
      | Some s => ret s
      | None => raise validation_error
      end
  | PNone | PList _ | PDict _ => raise validation_error
  end.

(** [LivabilityResult(...)] as the handler calls it. The four floats,
    the label and the years have the declared types; the analysis is
    validated against [str]; the data source takes its default. *)
Definition LivabilityResult_init (lat lon solar aqi : float) (score_label : string)
    (habitable_years : Z) (gemini_text : pyval) : result LivabilityResult :=
  text <~ validate_str gemini_text ;
  ret {| location_latitude := lat;
         location_longitude := lon;
         solar_radiation_score := solar;
         air_quality_index := aqi;
         calculated_livability_score := score_label;
         estimated_habitable_years := habitable_years;
         gemini_analysis := text;
         data_source := "Solar Radiation + AQI dataset + Eco Prediction Insight" |}.

(** The handler, over the calculator it calls. The construction of the
    reply comes last: when it raises, the request has been sent. *)
Definition handler (calc : float -> float -> string * Z) (w : world)
    (lat lon solar aqi : float) : result LivabilityResult * list request :=
  let '(score_label, habitable_years) := calc solar aqi in
  let '(gemini_text, sent) := ask_gemini_analysis w lat lon solar aqi None in
  (LivabilityResult_init lat lon solar aqi score_label habitable_years gemini_text,
   sent).

Definition get_livability_score : world -> float -> float -> float -> float ->
    result LivabilityResult * list request :=
  handler calculate_livability_score.

(** The four query parameters after parsing; [None] is a parameter that
    is missing or is not a float. *)
Record query := {
  q_lat : option float;
  q_lon : option float;
  q_solar : option float;
  q_aqi : option float
}.

(** A [Query(..., ge=lo, le=hi)] constraint. *)
Definition in_range (lo hi : Z) (x : float) : bool :=
  Float.ge x (Float.of_int lo) && Float.le x (Float.of_int hi).

(** The outcome of one inbound request: the parameters are refused; the
    handler returns the model [r], which becomes the body of the reply;
    or the handler raises, which the framework answers with a 500. *)
Inductive http_reply :=
  | Rejected422
  | Replied200 (r : LivabilityResult)
  | Failed500.

(** The boundary layer in front of a handler [h]: the parameters are
    validated, and only then is the handler called. *)
Definition route
    (h : world -> float -> float -> float -> float ->
         result LivabilityResult * list request)
    (w : world) (q : query) : http_reply * list request :=
  match q_lat q, q_lon q, q_solar q, q_aqi q with
  | Some lat, Some lon, Some solar, Some aqi =>
      if in_range (-90) 90 lat && in_range (-180) 180 lon
      then let '(r, sent) := h w lat lon solar aqi in
           (match r with
            | inl m => Replied200 m
            | inr _ => Failed500
            end, sent)
      else (Rejected422, [])
  | _, _, _, _ => (Rejected422, [])
  end.

Definition endpoint : world -> query -> http_reply * list request :=
  route get_livability_score.

End Service.

(** [x] lies below [lo] or above [hi]. *)
Definition outside (lo hi : Z) (x : float) : bool :=
  Float.lt x (Float.of_int lo) || Float.gt x (Float.of_int hi).

(** The network answers the request [rq] with a 2xx response whose body
    decodes to the document [doc]. *)
Definition answers (w : world) (rq : request) (doc : pyval) : Prop :=
  exists r : response,
    network w rq = PostResponse r /\
    (200 <=? status_code r) && (status_code r <=? 299) = true /\
    json_body r = inl doc.

(** The text of the first part of the first content of the JSON body of
    a request: where the prompt travels. *)
Definition request_prompt (rq : request) : result pyval :=
  contents <~ py_get (req_json rq) "contents" PNone ;
  content <~ py_item0 contents ;
  parts <~ py_get content "parts" PNone ;
  part <~ py_item0 parts ;
  py_get part "text" PNone.

(** ** Sample inputs *)

(** [-2^-60], a negative float much smaller than the spacing of floats
    around 100. *)
Definition tiny_negative : float := S754_finite true 4503599627370496 (-112).

(** [-2^-46], the opposite of the spacing of floats just above 100, and
    [-2^-47], half of it. *)
Definition minus_2_pow_m46 : float := S754_finite true 4503599627370496 (-98).

Definition minus_2_pow_m47 : float := S754_finite true 4503599627370496 (-99).

(** [2.5] *)
Definition two_and_a_half : float := Float.div (Float.of_int 5) (Float.of_int 2).

Definition sample_str (x : float) : string := "x".

(** A world with a configured key whose network answers [200] with the
    JSON document [body]. *)
Definition world_answering (body : pyval) : world :=
  {| environ := {[ "GEMINI_API_KEY" := "secret" ]};
     network := fun _ =>
       PostResponse {| status_code := 200; status_error := "unused";
                       json_body := inl body |} |}.

Definition world_without_key : world :=
  {| environ := ∅; network := fun _ => PostRaised "unreachable" |}.

(** The float just below [-2^-47]. *)
Definition below_minus_2_pow_m47 : float := S754_finite true 4503599627370497 (-99).

(** A validation that converts no number to a string. *)
Definition refuse_scalars (v : pyval) : option string := None.

(** A complete answer of the service. *)
Definition sample_document : pyval :=
  PDict {[ "candidates" :=
    PList [PDict {[ "content" :=
      PDict {[ "parts" := PList [PDict {[ "text" := PStr "Plant trees." ]}] ]} ]}] ]}.

(** ** Semantics of rounding

    The definitions used to state what the float operations compute:
    exact rational values, the position of a real in the cell of a
    truncated mantissa, and the rounding relation. *)

Definition pow2 (e : Z) : Q := (2 ^ e)%Q.

(** A real [t] lies in the cell described by a shift record: the
    mantissa and the round bit give the integer part of [2 * t], the
    sticky bit tells whether [2 * t] is that integer. *)
Definition at_record (mrs : shr_record) (t : Q) : Prop :=
  let k := inject_Z (2 * shr_m mrs + Z.b2z (shr_r mrs)) in
  (k <= 2 * t)%Q /\ (2 * t < k + 1)%Q /\ (shr_s mrs = false <-> (2 * t == k)%Q).

(** A real [x] lies in the cell of [mrs] at exponent [e]. *)
Definition inbetween (mrs : shr_record) (e : Z) (x : Q) : Prop :=
  at_record mrs (x * pow2 (- e)).

Definition emin64 : Z := -1074.

(** The value kept by round-to-nearest-even in the cell of [mrs]. *)
Definition rne (mrs : shr_record) : Z :=
  round_nearest_even (shr_m mrs) (loc_of_shr_record mrs).

(** The last step of [binary_round_aux]: renormalise the rounded
    mantissa and check for overflow. *)
Definition finish (sx : bool) (m E : Z) : float :=
  let '(mrs, e) := shr_fexp Float.prec Float.emax m E loc_Exact in
  match shr_m mrs with
  | Z0 => S754_zero sx
  | Zpos p => if e <=? Float.emax - Float.prec then S754_finite sx p e
              else S754_infinity sx
  | Zneg _ => S754_nan
  end.

(** [E] is the exponent at which a positive real [x] is rounded. *)
Definition canon (x : Q) (E : Z) : Prop :=
  emin64 <= E /\ (x < pow2 (E + 53))%Q /\ (emin64 < E -> (pow2 (E + 52) <= x)%Q).

(** [f] is the rounding of the nonnegative real [x]. *)
Definition rounded (x : Q) (f : float) : Prop :=
  exists (mrs : shr_record) (E : Z),
    canon x E /\ inbetween mrs E x /\ 0 <= shr_m mrs /\ f = finish false (rne mrs) E.

Definition p52 : positive := 4503599627370496.

(** Floats that are not below zero: zeros, positive finite numbers and
    plus infinity. *)
Definition nonneg (f : float) : bool :=
  match f with
  | S754_zero _ => true
  | S754_infinity s => negb s
  | S754_nan => false
  | S754_finite s m e => negb s
  end.

Definition fin_or_inf (m : positive) (E : Z) : float :=
  if E <=? 971 then S754_finite false m E else S754_infinity false.

(** A key that orders the floats other than NaN: class, then exponent,
    then mantissa, mirrored for negative numbers. *)
Definition fkey (f : float) : Z * Z * Z :=
  match f with
  | S754_nan => (0, 0, 0)
  | S754_zero _ => (0, 0, 0)
  | S754_infinity true => (-2, 0, 0)
  | S754_infinity false => (2, 0, 0)
  | S754_finite false m e => (1, e, Z.pos m)
  | S754_finite true m e => (-1, - e, - Z.pos m)
  end.

Definition key_compare (a b : Z * Z * Z) : comparison :=
  let '(a1, a2, a3) := a in
  let '(b1, b2, b3) := b in
  match a1 ?= b1 with
  | Eq => match a2 ?= b2 with
          | Eq => a3 ?= b3
          | c => c
          end
  | c => c
  end.

Definition key_le (a b : Z * Z * Z) : Prop := key_compare a b <> Gt.
Definition key_lt (a b : Z * Z * Z) : Prop := key_compare a b = Lt.

(** The rational [m * 2^e]. *)
Definition F2Q (m : positive) (e : Z) : Q := inject_Z (Z.pos m) * pow2 e.

(** Reals extended with the two infinities. *)
Inductive xval :=
  | NInf
  | Fin (q : Q)
  | PInf.

(** The value of a float (of a float other than NaN). *)
Definition value (f : float) : xval :=
  match f with
  | S754_zero _ => Fin 0
  | S754_finite s m e => Fin (if s then - F2Q m e else F2Q m e)
  | S754_infinity s => if s then NInf else PInf
  | S754_nan => Fin 0
  end.

Definition xle (a b : xval) : Prop :=
  match a, b with
  | NInf, _ => True
  | _, PInf => True
  | Fin p, Fin q => (p <= q)%Q
  | _, _ => False
  end.

(** [f] is the rounding of the real [q], of either sign. *)
Definition sround (q : Q) (f : float) : Prop :=
  ((q == 0)%Q /\ exists s, f = S754_zero s) \/
  ((0 < q)%Q /\ rounded q f) \/
  ((q < 0)%Q /\ exists g, rounded (- q) g /\ f = SFopp g).

(** [f] is the float an operation returns when its exact result is the
    extended value [x]. *)
Definition rounds_to (x : xval) (f : float) : Prop :=
  match x with
  | NInf => f = S754_infinity true
  | Fin q => sround q f
  | PInf => f = S754_infinity false
  end.

(** Exact operations on extended values. *)
Definition xscale (c : Q) (x : xval) : xval :=
  match x with
  | Fin q => Fin (q * c)
  | y => y
  end.

Definition xsub_from (c : Q) (x : xval) : xval :=
  match x with
  | NInf => PInf
  | Fin q => Fin (c - q)
  | PInf => NInf
  end.

Definition xadd (x y : xval) : xval :=
  match x, y with
  | Fin p, Fin q => Fin (p + q)
  | NInf, _ | _, NInf => NInf
  | _, _ => PInf
  end.

(** * Properties of float comparison *)

Lemma SFcompare_antisym (x y : float) :
  SFcompare y x = option_map CompOpp (SFcompare x y).
Proof.
  destruct x as [sx|sx| |sx mx ex], y as [sy|sy| |sy my ey]; simpl;
    try reflexivity; try (destruct sx; reflexivity); try (destruct sy; reflexivity);
    try (destruct sx, sy; reflexivity).
  destruct sx, sy; simpl; try reflexivity;
    rewrite (Z.compare_antisym ex ey); destruct (ex ?= ey); simpl; try reflexivity;
    change (Pos.compare_cont Eq my mx) with (Pos.compare_cont (CompOpp Eq) my mx);
    rewrite <- (Pos.compare_cont_antisym mx my Eq);
    destruct (Pos.compare_cont Eq mx my); reflexivity.
Qed.

Lemma lt_not_ge (x y : float) : Float.lt x y = true -> Float.ge x y = false.
Proof.
  unfold Float.lt, Float.ge, SFltb, SFleb.
  rewrite (SFcompare_antisym x y).
  destruct (SFcompare x y) as [[ | | ]|]; simpl; congruence.
Qed.

Lemma gt_not_le (x y : float) : Float.gt x y = true -> Float.le x y = false.
Proof. apply (lt_not_ge y x). Qed.

Lemma eqb_ge (x y : float) : Float.eqb x y = true -> Float.ge x y = true.
Proof.
  unfold Float.eqb, Float.ge, SFeqb, SFleb.
  rewrite (SFcompare_antisym x y).
  destruct (SFcompare x y) as [[ | | ]|]; simpl; congruence.
Qed.

Lemma of_int_0 : Float.of_int 0 = S754_zero false.
Proof. reflexivity. Qed.

Lemma of_int_40 : Float.of_int 40 = S754_finite false 5629499534213120 (-47).
Proof. reflexivity. Qed.

Lemma of_int_70 : Float.of_int 70 = S754_finite false 4925812092436480 (-46).
Proof. reflexivity. Qed.

Lemma of_int_100 : Float.of_int 100 = S754_finite false 7036874417766400 (-46).
Proof. reflexivity. Qed.

(** Comparison against two positive finite floats of increasing exponent. *)
Lemma SFltb_finite_weaken (c : float) (m1 m2 : positive) (e1 e2 : Z) :
  e1 < e2 ->
  SFltb c (S754_finite false m1 e1) = true ->
  SFltb c (S754_finite false m2 e2) = true.
Proof.
  intros He. unfold SFltb.
  destruct c as [s|s| |s m e]; simpl; try congruence;
    try (destruct s; simpl; congruence).
  destruct s; simpl; [congruence|].
  destruct (Z.compare_spec e e1), (Z.compare_spec e e2); try lia; try congruence.
Qed.

Lemma SFeqb_finite_not_above (c : float) (m1 m2 : positive) (e1 e2 : Z) :
  e1 < e2 ->
  SFeqb c (S754_finite false m1 e1) = true ->
  SFleb (S754_finite false m2 e2) c = false.
Proof.
  intros He. unfold SFeqb, SFleb.
  destruct c as [s|s| |s m e]; simpl; try congruence;
    try (destruct s; simpl; congruence).
  destruct s; simpl; [congruence|].
  destruct (Z.compare_spec e e1), (Z.compare_spec e2 e); try lia; congruence.
Qed.

(** Below 40 is below 70, whatever the float. *)
Lemma lt_40_lt_70 (c : float) :
  Float.lt c (Float.of_int 40) = true -> Float.lt c (Float.of_int 70) = true.
Proof.
  rewrite of_int_40, of_int_70. apply SFltb_finite_weaken. lia.
Qed.

Lemma eqb_40_not_ge_70 (c : float) :
  Float.eqb c (Float.of_int 40) = true -> Float.ge c (Float.of_int 70) = false.
Proof.
  rewrite of_int_40, of_int_70. apply SFeqb_finite_not_above. lia.
Qed.

(** * Rounding to nearest even is monotone *)

(** ** Exact values and rounding *)

Lemma pow2_pos (e : Z) : (0 < pow2 e)%Q.
Proof. apply Qpower_0_lt. reflexivity. Qed.

Lemma pow2_add (a b : Z) : (pow2 (a + b) == pow2 a * pow2 b)%Q.
Proof. apply Qpower_plus. discriminate. Qed.

Lemma pow2_le (a b : Z) : a <= b -> (pow2 a <= pow2 b)%Q.
Proof. intros H. apply Qpower_le_compat_l; [exact H | discriminate]. Qed.

Lemma pow2_lt (a b : Z) : a < b -> (pow2 a < pow2 b)%Q.
Proof. intros H. apply Qpower_lt_compat_l; [exact H | reflexivity]. Qed.

Lemma pow2_inject (n : Z) : 0 <= n -> (pow2 n == inject_Z (2 ^ n))%Q.
Proof. intros H. unfold pow2. rewrite Zpower_Qpower by exact H. reflexivity. Qed.

Lemma pow2_0 : (pow2 0 == 1)%Q.
Proof. reflexivity. Qed.

Lemma pow2_opp (a : Z) : (pow2 a * pow2 (- a) == 1)%Q.
Proof. rewrite <- pow2_add, Z.add_opp_diag_r. reflexivity. Qed.

Lemma pow2_m1 : (pow2 (-1) == 1 # 2)%Q.
Proof. reflexivity. Qed.

Lemma inject_Z_lt_succ (a b : Z) : (inject_Z a < inject_Z b + 1)%Q -> a <= b.
Proof.
  intros H. change 1%Q with (inject_Z 1) in H. rewrite <- inject_Z_plus in H.
  rewrite <- Zlt_Qlt in H. lia.
Qed.

Lemma shr_1_at (mrs : shr_record) (t : Q) :
  0 <= shr_m mrs -> at_record mrs t ->
  at_record (shr_1 mrs) (t * (1 # 2)) /\ 0 <= shr_m (shr_1 mrs).
Proof.
  destruct mrs as [m r s]. unfold at_record. cbn [shr_m shr_r shr_s].
  intros Hm (Hl & Hu & Hs).
  assert (forall (m' : Z) (b : bool), m = 2 * m' + Z.b2z b -> 0 <= m' ->
    at_record {| shr_m := m'; shr_r := b; shr_s := r || s |} (t * (1 # 2)) /\ 0 <= m') as Hstep.
  { intros m' b -> Hm'. split; [|exact Hm']. unfold at_record. cbn [shr_m shr_r shr_s].
    repeat (rewrite ?inject_Z_plus, ?inject_Z_mult in * ).
    change (inject_Z 2) with 2%Q in *.
    assert (inject_Z (Z.b2z r) == 0 \/ inject_Z (Z.b2z r) == 1)%Q as Hr
      by (destruct r; [right|left]; reflexivity).
    split; [lra|]. split; [lra|].
    rewrite orb_false_iff. split.
    - intros [-> Hs']. apply Hs in Hs'.
      change (inject_Z (Z.b2z false)) with 0%Q in *. lra.
    - intros Heq. destruct r.
      + exfalso. change (inject_Z (Z.b2z true)) with 1%Q in *. lra.
      + split; [reflexivity|]. apply Hs.
        change (inject_Z (Z.b2z false)) with 0%Q in *. lra. }
  destruct m as [|[p|p|]|p]; try lia; cbn [shr_1].
  - apply (Hstep 0 false); [reflexivity | lia].
  - apply (Hstep (Z.pos p) true); [rewrite Pos2Z.inj_xI; simpl; lia | lia].
  - apply (Hstep (Z.pos p) false); [rewrite Pos2Z.inj_xO; simpl; lia | lia].
  - apply (Hstep 0 true); [reflexivity | lia].
Qed.

Lemma at_record_ext (mrs : shr_record) (t t' : Q) :
  (t == t')%Q -> at_record mrs t -> at_record mrs t'.
Proof.
  unfold at_record. intros E (Hl & Hu & Hs). rewrite <- E. auto.
Qed.

Lemma iter_shr_1_at (p : positive) : forall (mrs : shr_record) (t : Q),
  0 <= shr_m mrs -> at_record mrs t ->
  at_record (SpecFloat.iter_pos shr_1 p mrs) (t * pow2 (- Z.pos p)) /\
  0 <= shr_m (SpecFloat.iter_pos shr_1 p mrs).
Proof.
  induction p as [p IH|p IH|]; intros mrs t Hm Ht; cbn [SpecFloat.iter_pos].
  - destruct (shr_1_at mrs t Hm Ht) as (H1 & Hm1).
    destruct (IH _ _ Hm1 H1) as (H2 & Hm2).
    destruct (IH _ _ Hm2 H2) as (H3 & Hm3).
    split; [|exact Hm3]. refine (at_record_ext _ _ _ _ H3).
    replace (- Z.pos p~1) with (-1 + (- Z.pos p + - Z.pos p)) by lia.
    rewrite !pow2_add, pow2_m1. ring.
  - destruct (IH _ _ Hm Ht) as (H2 & Hm2).
    destruct (IH _ _ Hm2 H2) as (H3 & Hm3).
    split; [|exact Hm3]. refine (at_record_ext _ _ _ _ H3).
    replace (- Z.pos p~0) with (- Z.pos p + - Z.pos p) by lia.
    rewrite !pow2_add. ring.
  - destruct (shr_1_at mrs t Hm Ht) as (H1 & Hm1).
    split; [|exact Hm1]. refine (at_record_ext _ _ _ _ H1).
    change (pow2 (-1)) with (1 # 2)%Q. reflexivity.
Qed.

Lemma shr_inbetween (mrs : shr_record) (e n : Z) (x : Q) :
  0 <= n -> 0 <= shr_m mrs -> inbetween mrs e x ->
  snd (shr mrs e n) = e + n /\
  inbetween (fst (shr mrs e n)) (e + n) x /\
  0 <= shr_m (fst (shr mrs e n)).
Proof.
  intros Hn Hm Hx. destruct n as [|p|p]; try lia; cbn [shr fst snd].
  - rewrite Z.add_0_r. auto.
  - destruct (iter_shr_1_at p mrs _ Hm Hx) as (H & Hm').
    split; [reflexivity|]. split; [|exact Hm'].
    unfold inbetween. refine (at_record_ext _ _ _ _ H).
    replace (- (e + Z.pos p)) with (- e + - Z.pos p) by lia.
    rewrite pow2_add. ring.
Qed.

(** Number of binary digits. *)
Lemma digits2_pos_bounds (p : positive) :
  2 ^ (Z.pos (digits2_pos p) - 1) <= Z.pos p < 2 ^ Z.pos (digits2_pos p).
Proof.
  induction p as [p IH|p IH|]; cbn [digits2_pos].
  - rewrite Pos2Z.inj_succ, Pos2Z.inj_xI.
    replace (Z.succ (Z.pos (digits2_pos p)) - 1) with (Z.succ (Z.pos (digits2_pos p) - 1)) by lia.
    rewrite !Z.pow_succ_r by lia.
    set (a := 2 ^ (Z.pos (digits2_pos p) - 1)) in *.
    set (b := 2 ^ Z.pos (digits2_pos p)) in *. clearbody a b. lia.
  - rewrite Pos2Z.inj_succ. change (Z.pos p~0) with (2 * Z.pos p).
    replace (Z.succ (Z.pos (digits2_pos p)) - 1) with (Z.succ (Z.pos (digits2_pos p) - 1)) by lia.
    rewrite !Z.pow_succ_r by lia.
    set (a := 2 ^ (Z.pos (digits2_pos p) - 1)) in *.
    set (b := 2 ^ Z.pos (digits2_pos p)) in *. clearbody a b. lia.
  - simpl. lia.
Qed.

Lemma Zdigits2_bounds (m : Z) :
  0 < m -> 0 < Zdigits2 m /\ 2 ^ (Zdigits2 m - 1) <= m < 2 ^ Zdigits2 m.
Proof.
  destruct m as [|p|p]; try lia. intros _. cbn [Zdigits2].
  split; [lia | apply digits2_pos_bounds].
Qed.

Lemma Zdigits2_unique (m d : Z) :
  0 < d -> 2 ^ (d - 1) <= m < 2 ^ d -> Zdigits2 m = d.
Proof.
  intros Hd H.
  assert (0 < m) as Hm by (pose proof (Z.pow_pos_nonneg 2 (d - 1)); lia).
  destruct (Zdigits2_bounds m Hm) as (Hd' & H').
  destruct (Z.lt_trichotomy (Zdigits2 m) d) as [Hlt|[Heq|Hgt]]; [exfalso|exact Heq|exfalso].
  - assert (2 ^ Zdigits2 m <= 2 ^ (d - 1)) by (apply Z.pow_le_mono_r; lia). lia.
  - assert (2 ^ d <= 2 ^ (Zdigits2 m - 1)) by (apply Z.pow_le_mono_r; lia). lia.
Qed.

Lemma fexp_eq (e : Z) : fexp Float.prec Float.emax e = Z.max (e - 53) emin64.
Proof. reflexivity. Qed.

Lemma binary_round_aux_finish (sx : bool) (m e : Z) (l : location) :
  binary_round_aux Float.prec Float.emax sx m e l =
  finish sx (rne (fst (shr_fexp Float.prec Float.emax m e l)))
            (snd (shr_fexp Float.prec Float.emax m e l)).
Proof.
  unfold binary_round_aux, finish, rne.
  destruct (shr_fexp Float.prec Float.emax m e l) as [mrs' e']. reflexivity.
Qed.

Lemma p52_eq : Z.pos p52 = 2 ^ 52.
Proof. reflexivity. Qed.

Lemma finish_zero (sx : bool) (E : Z) : emin64 <= E -> finish sx 0 E = S754_zero sx.
Proof.
  intros HE. unfold finish, shr_fexp. cbn [Zdigits2 shr_record_of_loc].
  rewrite fexp_eq.
  destruct (Z.max (0 + E - 53) emin64 - E) as [|p|p] eqn:Hn; try reflexivity.
  unfold emin64 in *. lia.
Qed.

Lemma finish_small (sx : bool) (m : positive) (E : Z) :
  emin64 <= E -> Z.pos m < 2 ^ 53 ->
  finish sx (Z.pos m) E =
    if E <=? 971 then S754_finite sx m E else S754_infinity sx.
Proof.
  intros HE Hm. unfold finish, shr_fexp. cbn [shr_record_of_loc].
  rewrite fexp_eq.
  destruct (Zdigits2_bounds (Z.pos m) ltac:(lia)) as (Hd & Hlo & Hhi).
  assert (Zdigits2 (Z.pos m) <= 53) as Hd53.
  { destruct (Z.le_gt_cases (Zdigits2 (Z.pos m)) 53) as [H|H]; [exact H|exfalso].
    assert (2 ^ 53 <= 2 ^ (Zdigits2 (Z.pos m) - 1)) by (apply Z.pow_le_mono_r; lia).
    lia. }
  destruct (Z.max (Zdigits2 (Z.pos m) + E - 53) emin64 - E) as [|p|p] eqn:Hn;
    try reflexivity.
  unfold emin64 in *. lia.
Qed.

Lemma finish_carry (sx : bool) (E : Z) :
  emin64 <= E ->
  finish sx (2 ^ 53) E =
    if E + 1 <=? 971 then S754_finite sx p52 (E + 1) else S754_infinity sx.
Proof.
  intros HE. unfold finish, shr_fexp. cbn [shr_record_of_loc].
  rewrite fexp_eq.
  replace (Zdigits2 (2 ^ 53)) with 54 by reflexivity.
  replace (Z.max (54 + E - 53) emin64 - E) with 1 by (unfold emin64 in *; lia).
  reflexivity.
Qed.

(** Moving a power of two across a comparison. *)
Lemma unscale (x : Q) (e : Z) : (x * pow2 (- e) * pow2 e == x)%Q.
Proof.
  rewrite <- Qmult_assoc, (Qmult_comm (pow2 (- e))), pow2_opp. ring.
Qed.

Lemma scaled_lt (x : Q) (e n : Z) :
  (x * pow2 (- e) < pow2 n)%Q <-> (x < pow2 (n + e))%Q.
Proof.
  rewrite pow2_add.
  rewrite <- (Qmult_lt_r (x * pow2 (- e)) (pow2 n) (pow2 e) (pow2_pos e)).
  rewrite unscale. reflexivity.
Qed.

Lemma scaled_ge (x : Q) (e n : Z) :
  (pow2 n <= x * pow2 (- e))%Q <-> (pow2 (n + e) <= x)%Q.
Proof.
  rewrite pow2_add.
  rewrite <- (Qmult_le_r (pow2 n) (x * pow2 (- e)) (pow2 e) (pow2_pos e)).
  rewrite unscale. reflexivity.
Qed.

Lemma scaled_le_mono (x y : Q) (e : Z) :
  (x <= y)%Q -> (x * pow2 (- e) <= y * pow2 (- e))%Q.
Proof. intros H. apply Qmult_le_r; [apply pow2_pos | exact H]. Qed.

(** Reading the cell of a location. *)
Lemma at_record_bounds (mrs : shr_record) (t : Q) :
  at_record mrs t ->
  (inject_Z (shr_m mrs) <= t)%Q /\ (t < inject_Z (shr_m mrs) + 1)%Q.
Proof.
  unfold at_record. intros (Hl & Hu & _).
  rewrite inject_Z_plus, inject_Z_mult in *. change (inject_Z 2) with 2%Q in *.
  assert (inject_Z (Z.b2z (shr_r mrs)) == 0 \/ inject_Z (Z.b2z (shr_r mrs)) == 1)%Q
    as [Hr|Hr] by (destruct (shr_r mrs); [right|left]; reflexivity); lra.
Qed.

Lemma shr_m_of_loc (m : Z) (l : location) : shr_m (shr_record_of_loc m l) = m.
Proof. destruct l as [|[ | | ]]; reflexivity. Qed.

Lemma loc_of_shr_of_loc (m : Z) (l : location) :
  loc_of_shr_record (shr_record_of_loc m l) = l.
Proof. destruct l as [|[ | | ]]; reflexivity. Qed.

(** The first shift of [binary_round_aux] lands on the canonical
    exponent of the value, keeping track of its position. *)
Lemma shr_fexp_canon (m e : Z) (l : location) (x : Q) :
  0 <= m -> e <= fexp Float.prec Float.emax (Zdigits2 m + e) ->
  inbetween (shr_record_of_loc m l) e x ->
  let r := shr_fexp Float.prec Float.emax m e l in
  canon x (snd r) /\ inbetween (fst r) (snd r) x /\ 0 <= shr_m (fst r).
Proof.
  intros Hm Hpre Hx r. subst r. unfold shr_fexp.
  set (E := fexp Float.prec Float.emax (Zdigits2 m + e)) in *.
  destruct (shr_inbetween (shr_record_of_loc m l) e (E - e) x) as (He & Hin & Hm').
  { lia. } { rewrite shr_m_of_loc. exact Hm. } { exact Hx. }
  replace (e + (E - e)) with E in * by lia. rewrite He.
  split; [|split; assumption].
  destruct (at_record_bounds _ _ Hx) as (Hlo & Hhi). rewrite shr_m_of_loc in Hlo, Hhi.
  assert (E = Z.max (Zdigits2 m + e - 53) emin64) as HE by (subst E; apply fexp_eq).
  unfold canon. split; [lia|].
  destruct (Z.eq_dec m 0) as [->|Hm0].
  - cbn [Zdigits2] in *. split.
    + apply Qlt_le_trans with (pow2 (0 + e)).
      * apply scaled_lt. rewrite pow2_0. change (inject_Z 0) with 0%Q in Hhi. lra.
      * apply pow2_le. lia.
    + intros HEm. exfalso. lia.
  - destruct (Zdigits2_bounds m ltac:(lia)) as (Hd & Hdlo & Hdhi).
    split.
    + apply Qlt_le_trans with (pow2 (Zdigits2 m + e)).
      * apply scaled_lt. rewrite (pow2_inject (Zdigits2 m)) by lia.
        apply Qlt_le_trans with (inject_Z m + 1)%Q; [exact Hhi|].
        change 1%Q with (inject_Z 1). rewrite <- inject_Z_plus, <- Zle_Qle. lia.
      * apply pow2_le. lia.
    + intros HEm. replace (E + 52) with ((Zdigits2 m - 1) + e) by lia.
      apply scaled_ge. rewrite (pow2_inject (Zdigits2 m - 1)) by lia.
      apply Qle_trans with (inject_Z m); [|exact Hlo].
      rewrite <- Zle_Qle. lia.
Qed.

Theorem binary_round_aux_rounded (m e : Z) (l : location) (x : Q) :
  0 <= m -> e <= fexp Float.prec Float.emax (Zdigits2 m + e) ->
  inbetween (shr_record_of_loc m l) e x ->
  rounded x (binary_round_aux Float.prec Float.emax false m e l).
Proof.
  intros Hm Hpre Hx.
  destruct (shr_fexp_canon m e l x Hm Hpre Hx) as (Hc & Hin & Hm').
  rewrite binary_round_aux_finish.
  exists (fst (shr_fexp Float.prec Float.emax m e l)),
         (snd (shr_fexp Float.prec Float.emax m e l)).
  auto.
Qed.

(** Bounds on the rounded mantissa at the canonical exponent. *)
Lemma rne_bounds (mrs : shr_record) :
  shr_m mrs <= rne mrs <= shr_m mrs + 1.
Proof.
  unfold rne. destruct mrs as [m [|] [|]]; cbn; try lia.
  destruct (Z.even m); lia.
Qed.

Lemma canon_mantissa (x : Q) (E : Z) (mrs : shr_record) :
  canon x E -> inbetween mrs E x -> 0 <= shr_m mrs ->
  shr_m mrs < 2 ^ 53 /\ (emin64 < E -> 2 ^ 52 <= shr_m mrs).
Proof.
  intros (HE & Hhi & Hlo) Hin Hm.
  destruct (at_record_bounds _ _ Hin) as (Hmlo & Hmhi).
  split.
  - rewrite (Z.add_comm E 53) in Hhi. apply (proj2 (scaled_lt x E 53)) in Hhi.
    rewrite (pow2_inject 53) in Hhi by lia.
    assert (inject_Z (shr_m mrs) < inject_Z (2 ^ 53))%Q as H by lra.
    rewrite <- Zlt_Qlt in H. exact H.
  - intros HEm. specialize (Hlo HEm).
    rewrite (Z.add_comm E 52) in Hlo. apply (proj2 (scaled_ge x E 52)) in Hlo.
    rewrite (pow2_inject 52) in Hlo by lia.
    assert (inject_Z (2 ^ 52) < inject_Z (shr_m mrs) + 1)%Q as H by lra.
    apply inject_Z_lt_succ in H. exact H.
Qed.

Lemma finish_shape (m E : Z) :
  emin64 <= E -> 0 <= m <= 2 ^ 53 ->
  (m = 0 /\ finish false m E = S754_zero false) \/
  (0 < m < 2 ^ 53 /\ finish false m E = fin_or_inf (Z.to_pos m) E) \/
  (m = 2 ^ 53 /\ finish false m E = fin_or_inf p52 (E + 1)).
Proof.
  intros HE Hm.
  destruct (Z.eq_dec m 0) as [->|H0]; [left; split; [reflexivity|apply finish_zero; exact HE]|].
  destruct (Z.eq_dec m (2 ^ 53)) as [->|H53].
  - right; right. split; [reflexivity|]. apply finish_carry. exact HE.
  - right; left. split; [lia|].
    destruct m as [|p|p]; try lia.
    rewrite finish_small by lia. reflexivity.
Qed.

Lemma bounded_iff (m : positive) (e : Z) :
  bounded Float.prec Float.emax m e = true <->
  Z.max (Z.pos (digits2_pos m) + e - 53) emin64 = e /\ e <= 971.
Proof.
  unfold bounded, canonical_mantissa. rewrite andb_true_iff, Z.eqb_eq, Z.leb_le.
  rewrite fexp_eq. reflexivity.
Qed.

Lemma fin_or_inf_nonneg (m : positive) (E : Z) :
  emin64 <= E -> Z.pos m < 2 ^ 53 -> (emin64 < E -> 2 ^ 52 <= Z.pos m) ->
  nonneg (fin_or_inf m E) = true /\ Float.valid (fin_or_inf m E) = true.
Proof.
  intros HE Hhi Hlo. unfold fin_or_inf.
  destruct (Z.leb_spec E 971) as [H971|H971]; [|split; reflexivity].
  split; [reflexivity|].
  unfold Float.valid. cbn [valid_binary]. apply bounded_iff. split; [|exact H971].
  pose proof (digits2_pos_bounds m) as (Hdlo & Hdhi).
  assert (Z.pos (digits2_pos m) <= 53) as Hd53.
  { destruct (Z.le_gt_cases (Z.pos (digits2_pos m)) 53) as [H|H]; [exact H|exfalso].
    assert (2 ^ 53 <= 2 ^ (Z.pos (digits2_pos m) - 1)) by (apply Z.pow_le_mono_r; lia).
    lia. }
  destruct (Z.eq_dec E emin64) as [->|HEm]; [unfold emin64; lia|].
  assert (53 <= Z.pos (digits2_pos m)) as Hd53'.
  { destruct (Z.le_gt_cases 53 (Z.pos (digits2_pos m))) as [H|H]; [exact H|exfalso].
    assert (2 ^ Z.pos (digits2_pos m) <= 2 ^ 52) by (apply Z.pow_le_mono_r; lia).
    lia. }
  unfold emin64 in *. lia.
Qed.

Lemma rounded_shape (x : Q) (f : float) :
  rounded x f ->
  exists m E, emin64 <= E /\ 0 <= m <= 2 ^ 53 /\ (emin64 < E -> 2 ^ 52 <= m) /\
              f = finish false m E.
Proof.
  intros (mrs & E & Hc & Hin & Hm & ->).
  destruct (canon_mantissa x E mrs Hc Hin Hm) as (Hhi & Hlo).
  pose proof (rne_bounds mrs) as Hr.
  exists (rne mrs), E. destruct Hc as (HE & _).
  repeat split; lia.
Qed.

Lemma finish_nonneg (m E : Z) :
  emin64 <= E -> 0 <= m <= 2 ^ 53 -> (emin64 < E -> 2 ^ 52 <= m) ->
  nonneg (finish false m E) = true /\ Float.valid (finish false m E) = true.
Proof.
  intros HE Hm Hlo.
  destruct (finish_shape m E HE Hm) as [(_ & ->)|[(Hm' & ->)|(_ & ->)]].
  - split; reflexivity.
  - apply fin_or_inf_nonneg; rewrite ?Z2Pos.id by lia; auto; lia.
  - apply fin_or_inf_nonneg; rewrite ?p52_eq; lia.
Qed.

Lemma rounded_nonneg (x : Q) (f : float) :
  rounded x f -> nonneg f = true /\ Float.valid f = true.
Proof.
  intros H. destruct (rounded_shape x f H) as (m & E & HE & Hm & Hlo & ->).
  apply finish_nonneg; assumption.
Qed.

Lemma SFleb_finite_pos (m1 m2 : positive) (e1 e2 : Z) :
  SFleb (S754_finite false m1 e1) (S754_finite false m2 e2) = true <->
  e1 < e2 \/ (e1 = e2 /\ Z.pos m1 <= Z.pos m2).
Proof.
  unfold SFleb. cbn [SFcompare].
  change (Pos.compare_cont Eq m1 m2) with (Z.pos m1 ?= Z.pos m2).
  destruct (Z.compare_spec e1 e2), (Z.compare_spec (Z.pos m1) (Z.pos m2));
    split; intros H'; try reflexivity; try discriminate; lia.
Qed.

Lemma fin_or_inf_le (m1 m2 : positive) (E1 E2 : Z) :
  E1 < E2 \/ (E1 = E2 /\ Z.pos m1 <= Z.pos m2) ->
  SFleb (fin_or_inf m1 E1) (fin_or_inf m2 E2) = true.
Proof.
  intros H. unfold fin_or_inf.
  destruct (Z.leb_spec E1 971), (Z.leb_spec E2 971); try reflexivity.
  - apply SFleb_finite_pos. exact H.
  - exfalso. lia.
Qed.

Lemma finish_mono (m1 E1 m2 E2 : Z) :
  emin64 <= E1 -> 0 <= m1 <= 2 ^ 53 ->
  emin64 <= E2 -> 0 <= m2 <= 2 ^ 53 -> (emin64 < E2 -> 2 ^ 52 <= m2) ->
  E1 < E2 \/ (E1 = E2 /\ m1 <= m2) ->
  SFleb (finish false m1 E1) (finish false m2 E2) = true.
Proof.
  intros HE1 Hm1 HE2 Hm2 Hlo2 Hle.
  destruct (finish_shape m1 E1 HE1 Hm1) as [(H1 & ->)|[(H1 & ->)|(H1 & ->)]];
  destruct (finish_shape m2 E2 HE2 Hm2) as [(H2 & ->)|[(H2 & ->)|(H2 & ->)]];
    try reflexivity;
    try (unfold fin_or_inf; destruct (_ <=? 971); reflexivity);
    try (exfalso; lia);
    apply fin_or_inf_le; rewrite ?Z2Pos.id, ?p52_eq by lia; lia.
Qed.

Lemma rne_mono (a b : shr_record) (t1 t2 : Q) :
  at_record a t1 -> at_record b t2 -> (t1 <= t2)%Q -> rne a <= rne b.
Proof.
  intros (Hal & Hau & Has) (Hbl & Hbu & Hbs) Ht.
  assert (2 * shr_m a + Z.b2z (shr_r a) <= 2 * shr_m b + Z.b2z (shr_r b)) as HK.
  { apply inject_Z_lt_succ. lra. }
  destruct (Z.eq_dec (2 * shr_m a + Z.b2z (shr_r a)) (2 * shr_m b + Z.b2z (shr_r b)))
    as [Heq|Hne].
  - assert (shr_s b = false -> shr_s a = false) as Hs.
    { intros Hb. apply Has. apply Hbs in Hb. rewrite Heq in *. lra. }
    unfold rne. destruct a as [ma ra sa], b as [mb rb sb]. cbn [shr_m shr_r shr_s] in *.
    assert (ma = mb /\ ra = rb) as (-> & ->) by (destruct ra, rb; simpl in *; split; congruence || lia).
    destruct rb, sa, sb; cbn; try lia; destruct (Z.even mb); lia.
  - pose proof (rne_bounds a). pose proof (rne_bounds b).
    unfold rne in *. destruct a as [ma ra sa], b as [mb rb sb]. cbn [shr_m shr_r shr_s] in *.
    destruct (Z.eq_dec ma mb) as [->|Hm].
    + destruct ra, rb; simpl in *; try lia. destruct sa; cbn in *; lia.
    + destruct ra, rb; simpl in *; lia.
Qed.

(** Rounding is monotone. *)
Theorem rounded_mono (x y : Q) (f g : float) :
  rounded x f -> rounded y g -> (x <= y)%Q -> SFleb f g = true.
Proof.
  intros (a & E1 & Hc1 & Hin1 & Hm1 & ->) (b & E2 & Hc2 & Hin2 & Hm2 & ->) Hxy.
  destruct (canon_mantissa x E1 a Hc1 Hin1 Hm1) as (Hhi1 & Hlo1).
  destruct (canon_mantissa y E2 b Hc2 Hin2 Hm2) as (Hhi2 & Hlo2).
  pose proof (rne_bounds a) as Hra. pose proof (rne_bounds b) as Hrb.
  destruct Hc1 as (HE1 & Hx1 & Hx2), Hc2 as (HE2 & Hy1 & Hy2).
  apply finish_mono; try lia.
  destruct (Z.lt_trichotomy E1 E2) as [Hlt|[Heq|Hgt]]; [left; exact Hlt| |exfalso].
  - right. split; [exact Heq|]. subst E2.
    apply (rne_mono a b _ _ Hin1 Hin2). apply scaled_le_mono. exact Hxy.
  - assert (pow2 (E2 + 53) <= pow2 (E1 + 52))%Q by (apply pow2_le; lia).
    specialize (Hx2 ltac:(lia)). lra.
Qed.

(** ** The order of floats *)

Lemma SFcompare_key (f g : float) :
  Float.is_nan f = false -> Float.is_nan g = false ->
  SFcompare f g = Some (key_compare (fkey f) (fkey g)).
Proof.
  destruct f as [s1|s1| |s1 m1 e1], g as [s2|s2| |s2 m2 e2]; try discriminate;
    intros _ _; try (destruct s1); try (destruct s2); try reflexivity.
  cbn [SFcompare fkey key_compare]. change (-1 ?= -1) with Eq. cbv iota.
  rewrite Z.compare_opp, (Z.compare_antisym e1 e2).
  destruct (e1 ?= e2); reflexivity.
Qed.

Lemma key_le_spec (a b : Z * Z * Z) :
  key_le a b <->
  a.1.1 < b.1.1 \/ (a.1.1 = b.1.1 /\ (a.1.2 < b.1.2 \/ (a.1.2 = b.1.2 /\ a.2 <= b.2))).
Proof.
  destruct a as [[a1 a2] a3], b as [[b1 b2] b3]. unfold key_le, key_compare. cbn.
  destruct (Z.compare_spec a1 b1), (Z.compare_spec a2 b2), (Z.compare_spec a3 b3);
    split; intros H'; try congruence; try lia.
Qed.

Lemma key_lt_spec (a b : Z * Z * Z) :
  key_lt a b <->
  a.1.1 < b.1.1 \/ (a.1.1 = b.1.1 /\ (a.1.2 < b.1.2 \/ (a.1.2 = b.1.2 /\ a.2 < b.2))).
Proof.
  destruct a as [[a1 a2] a3], b as [[b1 b2] b3]. unfold key_lt, key_compare. cbn.
  destruct (Z.compare_spec a1 b1), (Z.compare_spec a2 b2), (Z.compare_spec a3 b3);
    split; intros H'; try congruence; try lia.
Qed.

Lemma SFleb_nan (f g : float) :
  SFleb f g = true -> Float.is_nan f = false /\ Float.is_nan g = false.
Proof.
  unfold SFleb. destruct f, g; cbn; try discriminate; auto.
Qed.

Lemma SFltb_nan (f g : float) :
  SFltb f g = true -> Float.is_nan f = false /\ Float.is_nan g = false.
Proof.
  unfold SFltb. destruct f, g; cbn; try discriminate; auto.
Qed.

Lemma SFleb_key (f g : float) :
  Float.is_nan f = false -> Float.is_nan g = false ->
  (SFleb f g = true <-> key_le (fkey f) (fkey g)).
Proof.
  intros Hf Hg. unfold SFleb, key_le. rewrite (SFcompare_key f g Hf Hg).
  destruct (key_compare (fkey f) (fkey g)); split; congruence.
Qed.

Lemma SFltb_key (f g : float) :
  Float.is_nan f = false -> Float.is_nan g = false ->
  (SFltb f g = true <-> key_lt (fkey f) (fkey g)).
Proof.
  intros Hf Hg. unfold SFltb, key_lt. rewrite (SFcompare_key f g Hf Hg).
  destruct (key_compare (fkey f) (fkey g)); split; congruence.
Qed.

Lemma SFleb_refl (f : float) : Float.is_nan f = false -> SFleb f f = true.
Proof. intros H. apply SFleb_key; auto. apply key_le_spec. lia. Qed.

Lemma SFleb_trans (f g h : float) :
  SFleb f g = true -> SFleb g h = true -> SFleb f h = true.
Proof.
  intros H1 H2.
  destruct (SFleb_nan _ _ H1) as (Hf & Hg), (SFleb_nan _ _ H2) as (_ & Hh).
  apply SFleb_key in H1, H2; auto. apply SFleb_key; auto.
  apply key_le_spec in H1, H2. apply key_le_spec. lia.
Qed.

Lemma SFltb_le_trans (f g h : float) :
  SFltb f g = true -> SFleb g h = true -> SFltb f h = true.
Proof.
  intros H1 H2.
  destruct (SFltb_nan _ _ H1) as (Hf & Hg), (SFleb_nan _ _ H2) as (_ & Hh).
  apply SFltb_key in H1; auto. apply SFleb_key in H2; auto. apply SFltb_key; auto.
  apply key_lt_spec in H1. apply key_le_spec in H2. apply key_lt_spec. lia.
Qed.

Lemma SFleb_lt_trans (f g h : float) :
  SFleb f g = true -> SFltb g h = true -> SFltb f h = true.
Proof.
  intros H1 H2.
  destruct (SFleb_nan _ _ H1) as (Hf & Hg), (SFltb_nan _ _ H2) as (_ & Hh).
  apply SFleb_key in H1; auto. apply SFltb_key in H2; auto. apply SFltb_key; auto.
  apply key_le_spec in H1. apply key_lt_spec in H2. apply key_lt_spec. lia.
Qed.

Lemma SFltb_le (f g : float) : SFltb f g = true -> SFleb f g = true.
Proof.
  unfold SFltb, SFleb. destruct (SFcompare f g) as [[ | | ]|]; congruence.
Qed.

(** On floats other than NaN, the order is total. *)
Lemma SFltb_false_le (f g : float) :
  Float.is_nan f = false -> Float.is_nan g = false ->
  SFltb f g = false -> SFleb g f = true.
Proof.
  intros Hf Hg H. apply SFleb_key; auto.
  assert (~ key_lt (fkey f) (fkey g)) as Hn.
  { intros Hk. apply SFltb_key in Hk; auto. congruence. }
  rewrite key_lt_spec in Hn. apply key_le_spec. lia.
Qed.

Lemma SFleb_antisym (f g : float) :
  SFleb f g = true -> SFleb g f = true -> SFeqb f g = true.
Proof.
  intros H1 H2. destruct (SFleb_nan _ _ H1) as (Hf & Hg).
  apply SFleb_key in H1, H2; auto. unfold SFeqb.
  rewrite (SFcompare_key f g Hf Hg).
  destruct (key_compare (fkey f) (fkey g)) eqn:Hc; try reflexivity; exfalso.
  - apply key_le_spec in H2. assert (key_lt (fkey f) (fkey g)) as Hl by exact Hc.
    apply key_lt_spec in Hl. lia.
  - congruence.
Qed.

(** ** Values *)

Lemma F2Q_pos (m : positive) (e : Z) : (0 < F2Q m e)%Q.
Proof.
  unfold F2Q. apply Qmult_lt_0_compat; [|apply pow2_pos].
  change 0%Q with (inject_Z 0). rewrite <- Zlt_Qlt. lia.
Qed.

Lemma SFopp_involutive (f : float) : SFopp (SFopp f) = f.
Proof. destruct f as [s|s| |s m e]; cbn; rewrite ?negb_involutive; reflexivity. Qed.

Lemma valid_opp (f : float) : Float.valid (SFopp f) = Float.valid f.
Proof. destruct f; reflexivity. Qed.

Lemma is_nan_opp (f : float) : Float.is_nan (SFopp f) = Float.is_nan f.
Proof. destruct f; reflexivity. Qed.

Lemma nonneg_not_nan (f : float) : nonneg f = true -> Float.is_nan f = false.
Proof. destruct f; try discriminate; reflexivity. Qed.

Lemma sround_valid (q : Q) (f : float) :
  sround q f -> Float.valid f = true /\ Float.is_nan f = false.
Proof.
  intros [(_ & s & ->)|[(_ & H)|(_ & g & H & ->)]].
  - split; reflexivity.
  - destruct (rounded_nonneg q f H) as (Hn & Hv).
    split; [exact Hv | apply nonneg_not_nan; exact Hn].
  - destruct (rounded_nonneg _ g H) as (Hn & Hv).
    rewrite valid_opp, is_nan_opp. split; [exact Hv | apply nonneg_not_nan; exact Hn].
Qed.

Lemma rounds_to_valid (x : xval) (f : float) :
  rounds_to x f -> Float.valid f = true /\ Float.is_nan f = false.
Proof.
  destruct x as [|q|]; cbn [rounds_to]; [intros ->; split; reflexivity | apply sround_valid
    | intros ->; split; reflexivity].
Qed.

Lemma nonneg_zero_le (s : bool) (g : float) :
  nonneg g = true -> SFleb (S754_zero s) g = true.
Proof. destruct g as [s'|[|]| |[|] m e]; try discriminate; reflexivity. Qed.

Lemma opp_nonneg_le_zero (s : bool) (g : float) :
  nonneg g = true -> SFleb (SFopp g) (S754_zero s) = true.
Proof. destruct g as [s'|[|]| |[|] m e]; try discriminate; reflexivity. Qed.

Lemma opp_nonneg_le_nonneg (f g : float) :
  nonneg f = true -> nonneg g = true -> SFleb (SFopp f) g = true.
Proof.
  destruct f as [s|[|]| |[|] m e], g as [s'|[|]| |[|] m' e']; try discriminate; reflexivity.
Qed.

Lemma le_pinf (f : float) :
  Float.is_nan f = false -> SFleb f (S754_infinity false) = true.
Proof. destruct f as [s'|[|]| |[|] m e]; try discriminate; reflexivity. Qed.

Lemma ninf_le (f : float) :
  Float.is_nan f = false -> SFleb (S754_infinity true) f = true.
Proof. destruct f as [s'|[|]| |[|] m e]; try discriminate; reflexivity. Qed.

Lemma fkey_opp (f : float) :
  fkey (SFopp f) = (- (fkey f).1.1, - (fkey f).1.2, - (fkey f).2).
Proof.
  destruct f as [s|[|]| |[|] m e]; cbn; rewrite ?Z.opp_involutive; reflexivity.
Qed.

Lemma SFleb_opp (f g : float) :
  SFleb f g = true -> SFleb (SFopp g) (SFopp f) = true.
Proof.
  intros H. destruct (SFleb_nan _ _ H) as (Hf & Hg).
  apply SFleb_key in H; auto. apply SFleb_key; rewrite ?is_nan_opp; auto.
  apply key_le_spec in H. apply key_le_spec. rewrite !fkey_opp. cbn. lia.
Qed.

(** Operations are monotone in their exact result. *)
Theorem rounds_to_mono (x y : xval) (f g : float) :
  rounds_to x f -> rounds_to y g -> xle x y -> SFleb f g = true.
Proof.
  intros Hf Hg Hxy.
  destruct (rounds_to_valid x f Hf) as (_ & Hnf).
  destruct (rounds_to_valid y g Hg) as (_ & Hng).
  destruct x as [|p|], y as [|q|]; cbn [rounds_to xle] in *; try contradiction;
    try (subst f; apply ninf_le; exact Hng); try (subst g; apply le_pinf; exact Hnf).
  destruct Hf as [(Hp & s & ->)|[(Hp & Hf)|(Hp & f' & Hf & ->)]];
  destruct Hg as [(Hq & s' & ->)|[(Hq & Hg)|(Hq & g' & Hg & ->)]];
    try (exfalso; lra).
  - reflexivity.
  - apply nonneg_zero_le. apply (rounded_nonneg q g Hg).
  - exact (rounded_mono p q f g Hf Hg Hxy).
  - apply opp_nonneg_le_zero. apply (rounded_nonneg _ f' Hf).
  - apply opp_nonneg_le_nonneg; [apply (rounded_nonneg _ f' Hf) | apply (rounded_nonneg q g Hg)].
  - apply SFleb_opp. apply (rounded_mono _ _ g' f' Hg Hf). lra.
Qed.

(** The order of valid floats is the order of their values. *)
Lemma bounded_digits (m : positive) (e : Z) :
  bounded Float.prec Float.emax m e = true ->
  emin64 <= e <= 971 /\ Z.pos m < 2 ^ 53 /\ (emin64 < e -> 2 ^ 52 <= Z.pos m).
Proof.
  intros H. apply bounded_iff in H as (Hc & He).
  pose proof (digits2_pos_bounds m) as (Hlo & Hhi).
  assert (Z.pos (digits2_pos m) <= 53) as Hd by (unfold emin64 in *; lia).
  split; [unfold emin64 in *; lia|]. split.
  - assert (2 ^ Z.pos (digits2_pos m) <= 2 ^ 53) by (apply Z.pow_le_mono_r; lia). lia.
  - intros Hem. assert (Z.pos (digits2_pos m) = 53) as Hd' by (unfold emin64 in *; lia).
    rewrite Hd' in Hlo. exact Hlo.
Qed.

Lemma F2Q_le (m1 m2 : positive) (e1 e2 : Z) :
  bounded Float.prec Float.emax m1 e1 = true ->
  bounded Float.prec Float.emax m2 e2 = true ->
  SFleb (S754_finite false m1 e1) (S754_finite false m2 e2) = true ->
  (F2Q m1 e1 <= F2Q m2 e2)%Q.
Proof.
  intros H1 H2 Hle.
  apply bounded_digits in H1 as (He1 & Hm1 & _), H2 as (He2 & _ & Hm2).
  apply SFleb_finite_pos in Hle as [Hlt|(-> & Hm)]; unfold F2Q.
  - specialize (Hm2 ltac:(lia)).
    apply Qle_trans with (pow2 (53 + e1)).
    + rewrite pow2_add, (pow2_inject 53) by lia.
      apply Qmult_le_r; [apply pow2_pos|]. rewrite <- Zle_Qle. lia.
    + apply Qle_trans with (pow2 (52 + e2)); [apply pow2_le; lia|].
      rewrite pow2_add, (pow2_inject 52) by lia.
      apply Qmult_le_r; [apply pow2_pos|]. rewrite <- Zle_Qle. exact Hm2.
  - apply Qmult_le_r; [apply pow2_pos|]. rewrite <- Zle_Qle. exact Hm.
Qed.

Lemma value_le (f g : float) :
  Float.valid f = true -> Float.valid g = true ->
  SFleb f g = true -> xle (value f) (value g).
Proof.
  destruct f as [s1|[|]| |[|] m1 e1], g as [s2|[|]| |[|] m2 e2];
    intros Hv1 Hv2 Hle; cbn [value xle]; try exact I; try discriminate Hle;
    try apply Qle_refl;
    try (pose proof (F2Q_pos m1 e1)); try (pose proof (F2Q_pos m2 e2)); try lra.
  - apply SFleb_opp in Hle. cbn [SFopp negb] in Hle.
    pose proof (F2Q_le m2 m1 e2 e1 Hv2 Hv1 Hle). lra.
  - apply F2Q_le; assumption.
Qed.

(** ** The operations round their exact result *)

Lemma inbetween_exact (m e : Z) (x : Q) :
  (x == inject_Z m * pow2 e)%Q ->
  inbetween (shr_record_of_loc m loc_Exact) e x.
Proof.
  intros Hx. unfold inbetween, at_record. cbn [shr_record_of_loc shr_m shr_r shr_s Z.b2z].
  assert (x * pow2 (- e) == inject_Z m)%Q as Ht.
  { rewrite Hx, <- Qmult_assoc, pow2_opp. ring. }
  rewrite Z.add_0_r, inject_Z_mult. change (inject_Z 2) with 2%Q.
  rewrite Ht. repeat split; lra.
Qed.

Lemma iter_xO (m d : positive) : Z.pos (Pos.iter xO m d) = Z.pos m * 2 ^ Z.pos d.
Proof.
  change (Pos.iter xO m d) with (shift_pos d m).
  rewrite shift_pos_correct. change (Z.pow_pos 2 d) with (2 ^ Z.pos d). lia.
Qed.

(** Alignment to a smaller exponent keeps the value. *)
Lemma shl_align_spec (m : positive) (e e' : Z) :
  snd (shl_align m e e') = Z.min e e' /\
  Z.pos (fst (shl_align m e e')) = Z.pos m * 2 ^ (e - Z.min e e').
Proof.
  unfold shl_align. destruct (e' - e) as [|p|p] eqn:Hd; cbn [fst snd].
  - replace (Z.min e e') with e by lia. rewrite Z.sub_diag. lia.
  - replace (Z.min e e') with e by lia. rewrite Z.sub_diag. lia.
  - replace (Z.min e e') with e' by lia. split; [reflexivity|].
    rewrite iter_xO. replace (e - e') with (Z.pos p) by lia. reflexivity.
Qed.

Lemma F2Q_shift (m : Z) (e k : Z) :
  0 <= k -> (inject_Z (m * 2 ^ k) * pow2 (e - k) == inject_Z m * pow2 e)%Q.
Proof.
  intros Hk. rewrite inject_Z_mult, <- (pow2_inject k) by exact Hk.
  rewrite <- Qmult_assoc, <- pow2_add. replace (k + (e - k)) with e by lia.
  reflexivity.
Qed.

Lemma shl_align_value (m : positive) (e e' : Z) :
  (F2Q (fst (shl_align m e e')) (snd (shl_align m e e')) == F2Q m e)%Q.
Proof.
  destruct (shl_align_spec m e e') as (-> & Hm). unfold F2Q. rewrite Hm.
  replace (Z.min e e') with (e - (e - Z.min e e')) at 2 by lia.
  apply F2Q_shift. lia.
Qed.

Lemma Zdigits2_shift (m k : Z) :
  0 < m -> 0 <= k -> Zdigits2 (m * 2 ^ k) = Zdigits2 m + k.
Proof.
  intros Hm Hk. destruct (Zdigits2_bounds m Hm) as (Hd & Hlo & Hhi).
  apply Zdigits2_unique; [lia|].
  replace (Zdigits2 m + k - 1) with (Zdigits2 m - 1 + k) by lia.
  rewrite !Z.pow_add_r by lia.
  pose proof (Z.pow_pos_nonneg 2 k ltac:(lia) Hk). nia.
Qed.

Theorem binary_round_rounded (m : positive) (e : Z) :
  rounded (F2Q m e) (binary_round Float.prec Float.emax false m e).
Proof.
  unfold binary_round.
  set (T := fexp Float.prec Float.emax (Z.pos (digits2_pos m) + e)).
  pose proof (shl_align_spec m e T) as (He & Hm).
  pose proof (shl_align_value m e T) as Hv.
  destruct (shl_align m e T) as [mz ez]. cbn [fst snd] in *.
  apply binary_round_aux_rounded.
  - lia.
  - rewrite Hm, Zdigits2_shift by lia. cbn [Zdigits2]. fold T.
    replace (Z.pos (digits2_pos m) + (e - Z.min e T) + ez) with (Z.pos (digits2_pos m) + e)
      by lia.
    fold T. lia.
  - apply inbetween_exact. symmetry. exact Hv.
Qed.

Lemma binary_round_aux_opp (m e : Z) (l : location) :
  binary_round_aux Float.prec Float.emax true m e l =
  SFopp (binary_round_aux Float.prec Float.emax false m e l).
Proof.
  unfold binary_round_aux.
  destruct (shr_fexp Float.prec Float.emax m e l) as [mrs' e'].
  destruct (shr_fexp _ _ _ e' loc_Exact) as [mrs'' e''].
  destruct (shr_m mrs''); try reflexivity.
  destruct (e'' <=? Float.emax - Float.prec); reflexivity.
Qed.

Lemma binary_round_opp (m : positive) (e : Z) :
  binary_round Float.prec Float.emax true m e =
  SFopp (binary_round Float.prec Float.emax false m e).
Proof.
  unfold binary_round. destruct (shl_align m e _) as [mz ez].
  apply binary_round_aux_opp.
Qed.

(** Multiplication of two valid positive numbers. *)
Lemma Zdigits2_mul (m1 m2 : positive) :
  Z.pos (digits2_pos m1) + Z.pos (digits2_pos m2) - 1 <= Z.pos (digits2_pos (m1 * m2)).
Proof.
  pose proof (digits2_pos_bounds m1) as (Hl1 & _).
  pose proof (digits2_pos_bounds m2) as (Hl2 & _).
  pose proof (digits2_pos_bounds (m1 * m2)) as (_ & Hh).
  destruct (Z.le_gt_cases (Z.pos (digits2_pos m1) + Z.pos (digits2_pos m2) - 1)
              (Z.pos (digits2_pos (m1 * m2)))) as [H|H]; [exact H|exfalso].
  assert (2 ^ Z.pos (digits2_pos (m1 * m2))
          <= 2 ^ (Z.pos (digits2_pos m1) - 1 + (Z.pos (digits2_pos m2) - 1)))
    as Hp by (apply Z.pow_le_mono_r; lia).
  rewrite Z.pow_add_r in Hp by lia.
  rewrite Pos2Z.inj_mul in Hh.
  assert (0 < 2 ^ (Z.pos (digits2_pos m1) - 1)) by (apply Z.pow_pos_nonneg; lia).
  assert (0 < 2 ^ (Z.pos (digits2_pos m2) - 1)) by (apply Z.pow_pos_nonneg; lia).
  nia.
Qed.

Theorem SFmul_rounded (m1 m2 : positive) (e1 e2 : Z) :
  bounded Float.prec Float.emax m1 e1 = true ->
  bounded Float.prec Float.emax m2 e2 = true ->
  rounded (F2Q m1 e1 * F2Q m2 e2)
    (Float.mul (S754_finite false m1 e1) (S754_finite false m2 e2)).
Proof.
  intros H1 H2. unfold Float.mul. cbn [SFmul xorb].
  apply binary_round_aux_rounded.
  - lia.
  - cbn [Zdigits2]. rewrite fexp_eq.
    apply bounded_iff in H1 as (Hc1 & _), H2 as (Hc2 & _).
    pose proof (Zdigits2_mul m1 m2). unfold emin64 in *. lia.
  - apply inbetween_exact. unfold F2Q.
    rewrite Pos2Z.inj_mul, inject_Z_mult, pow2_add. ring.
Qed.

Lemma rounded_ext (x y : Q) (f : float) : (x == y)%Q -> rounded x f -> rounded y f.
Proof.
  intros Hxy (mrs & E & (HE & Hhi & Hlo) & Hin & Hm & Hf).
  exists mrs, E. split; [|split; [|auto]].
  - split; [exact HE|]. split; [rewrite <- Hxy; exact Hhi|].
    intros H. rewrite <- Hxy. auto.
  - unfold inbetween in *. refine (at_record_ext _ _ _ _ Hin). rewrite Hxy. reflexivity.
Qed.

(** Division. *)
Lemma new_location_spec (d r : Z) :
  0 < d -> 0 <= r < d ->
  new_location d r = if r =? 0 then loc_Exact else loc_Inexact (2 * r ?= d).
Proof.
  intros Hd Hr. unfold new_location, new_location_even, new_location_odd.
  destruct (Z.even d) eqn:He; [reflexivity|].
  destruct (r =? 0); [reflexivity|]. f_equal.
  assert (Z.odd d = true) as Ho by (rewrite <- Z.negb_even, He; reflexivity).
  apply Z.odd_spec in Ho as (k & Hk).
  destruct (Z.compare_spec (2 * r + 1) d), (Z.compare_spec (2 * r) d);
    try reflexivity; lia.
Qed.

Lemma div_location (d q r : Z) (t : Q) :
  0 < d -> 0 <= r < d ->
  (t * inject_Z d == inject_Z (d * q + r))%Q ->
  at_record
    (shr_record_of_loc q (if r =? 0 then loc_Exact else loc_Inexact (2 * r ?= d))) t.
Proof.
  intros Hd Hr Ht.
  rewrite inject_Z_plus, inject_Z_mult in Ht.
  assert (0 < inject_Z d)%Q as HD by (change 0%Q with (inject_Z 0); rewrite <- Zlt_Qlt; lia).
  assert (0 <= inject_Z r)%Q as HR0
    by (change 0%Q with (inject_Z 0); rewrite <- Zle_Qle; lia).
  assert (forall k : Q, (k * inject_Z d <= 2 * (t * inject_Z d))%Q -> (k <= 2 * t)%Q) as Hle.
  { intros k H. apply (Qmult_le_r _ _ (inject_Z d) HD). lra. }
  assert (forall k : Q, (2 * (t * inject_Z d) < k * inject_Z d)%Q -> (2 * t < k)%Q) as Hlt.
  { intros k H. apply (Qmult_lt_r _ _ (inject_Z d) HD). lra. }
  assert (forall k : Q, (2 * t == k)%Q <-> (2 * (t * inject_Z d) == k * inject_Z d)%Q) as Heq.
  { intros k. split; intros H.
    - rewrite <- H. ring.
    - apply (Qmult_inj_r _ _ (inject_Z d)); [lra|]. rewrite <- H. ring. }
  unfold at_record.
  destruct (Z.eqb_spec r 0) as [->|Hr0].
  - cbn [shr_record_of_loc shr_m shr_r shr_s Z.b2z].
    rewrite Z.add_0_r, inject_Z_mult. change (inject_Z 2) with 2%Q.
    change (inject_Z 0) with 0%Q in *.
    split; [apply Hle; lra|]. split; [apply Hlt; lra|].
    split; [intros _; apply Heq; lra | reflexivity].
  - assert (0 < inject_Z r)%Q as HR
      by (change 0%Q with (inject_Z 0); rewrite <- Zlt_Qlt; lia).
    destruct (Z.compare_spec (2 * r) d) as [Hc|Hc|Hc];
      cbn [shr_record_of_loc shr_m shr_r shr_s Z.b2z];
      rewrite ?Z.add_0_r, ?inject_Z_plus, ?inject_Z_mult;
      change (inject_Z 2) with 2%Q; change (inject_Z 1) with 1%Q.
    + assert (2 * inject_Z r == inject_Z d)%Q as Hc'
        by (rewrite <- Hc, inject_Z_mult; reflexivity).
      split; [apply Hle; lra|]. split; [apply Hlt; lra|].
      split; [intros _; apply Heq; lra | reflexivity].
    + assert (2 * inject_Z r < inject_Z d)%Q as Hc'
        by (change 2%Q with (inject_Z 2); rewrite <- inject_Z_mult, <- Zlt_Qlt; exact Hc).
      split; [apply Hle; lra|]. split; [apply Hlt; lra|].
      split; [discriminate|]. intros H. apply Heq in H. exfalso. lra.
    + assert (inject_Z d < 2 * inject_Z r)%Q as Hc'
        by (change 2%Q with (inject_Z 2); rewrite <- inject_Z_mult, <- Zlt_Qlt; exact Hc).
      assert (inject_Z r < inject_Z d)%Q as Hr' by (rewrite <- Zlt_Qlt; lia).
      split; [apply Hle; lra|]. split; [apply Hlt; lra|].
      split; [discriminate|]. intros H. apply Heq in H. exfalso. lra.
Qed.

Lemma div_digits (m1 m2 s q r : Z) :
  0 < m1 -> 0 < m2 -> 0 <= s -> m1 * 2 ^ s = m2 * q + r -> 0 <= r < m2 ->
  0 <= q /\ Zdigits2 m1 + s - Zdigits2 m2 <= Zdigits2 q.
Proof.
  intros H1 H2 Hs Heq Hr.
  assert (0 < 2 ^ s) as Hp by (apply Z.pow_pos_nonneg; lia).
  assert (0 <= q) as Hq by nia.
  split; [exact Hq|].
  destruct (Zdigits2_bounds m1 H1) as (Hd1 & Hl1 & _).
  destruct (Zdigits2_bounds m2 H2) as (Hd2 & _ & Hh2).
  assert (0 <= Zdigits2 q /\ q < 2 ^ Zdigits2 q) as (Hdq & Hhq).
  { destruct (Z.eq_dec q 0) as [->|Hq0]; [cbn; lia|].
    destruct (Zdigits2_bounds q ltac:(lia)) as (? & _ & ?). lia. }
  destruct (Z.le_gt_cases (Zdigits2 m1 + s - Zdigits2 m2) (Zdigits2 q)) as [H|H];
    [exact H|exfalso].
  assert (2 ^ (Zdigits2 q + Zdigits2 m2) <= 2 ^ (Zdigits2 m1 - 1 + s)) as Hpow
    by (apply Z.pow_le_mono_r; lia).
  rewrite !Z.pow_add_r in Hpow by lia.
  set (A := 2 ^ Zdigits2 q) in *. set (B := 2 ^ Zdigits2 m2) in *.
  set (C := 2 ^ (Zdigits2 m1 - 1)) in *. set (P := 2 ^ s) in *.
  assert ((q + 1) * m2 <= A * B) by nia.
  assert (C * P <= m1 * P) by nia.
  nia.
Qed.

Theorem SFdiv_rounded (m1 m2 : positive) (e1 e2 : Z) :
  rounded (F2Q m1 e1 / F2Q m2 e2)
    (Float.div (S754_finite false m1 e1) (S754_finite false m2 e2)).
Proof.
  unfold Float.div. cbn [SFdiv xorb]. unfold SFdiv_core_binary.
  set (D := Zdigits2 (Z.pos m1) + e1 - (Zdigits2 (Z.pos m2) + e2)).
  set (e' := Z.min (fexp Float.prec Float.emax D) (e1 - e2)).
  set (s := e1 - e2 - e').
  assert (0 <= s) as Hs by (subst s e'; lia).
  set (m' := match s with Z.pos _ => Z.shiftl (Z.pos m1) s | 0 => Z.pos m1 | Z.neg _ => 0 end).
  assert (m' = Z.pos m1 * 2 ^ s) as Hm'.
  { subst m'. destruct s as [|p|p]; try lia.
    apply Z.shiftl_mul_pow2. lia. }
  pose proof (Z_div_mod m' (Z.pos m2) ltac:(lia)) as Hdiv.
  destruct (Z.div_eucl m' (Z.pos m2)) as [q r]. destruct Hdiv as (Hqr & Hr).
  destruct (div_digits (Z.pos m1) (Z.pos m2) s q r) as (Hq & Hdig); try lia.
  rewrite new_location_spec by lia.
  apply binary_round_aux_rounded.
  - exact Hq.
  - assert (e' <= Z.max (D - 53) emin64) as He'
      by (unfold e'; rewrite fexp_eq; lia).
    rewrite fexp_eq. unfold s, D in *. lia.
  - unfold inbetween. apply div_location; [lia | lia |].
    rewrite <- Hqr, Hm', inject_Z_mult, <- (pow2_inject s) by exact Hs.
    unfold F2Q.
    assert (pow2 e1 == pow2 s * pow2 e' * pow2 e2)%Q as ->.
    { rewrite <- !pow2_add. replace (s + e' + e2) with e1 by (subst s; lia). reflexivity. }
    pose proof (pow2_pos e2). pose proof (pow2_opp e').
    assert (0 < inject_Z (Z.pos m2))%Q
      by (change 0%Q with (inject_Z 0); rewrite <- Zlt_Qlt; lia).
    transitivity (inject_Z (Z.pos m1) * pow2 s * (pow2 e' * pow2 (- e')))%Q;
      [field; split; lra | rewrite H0; ring].
Qed.

(** Addition and subtraction go through [binary_normalize]. *)
Lemma binary_normalize_pos (z : Z) (e : Z) (sz : bool) :
  0 < z -> rounded (inject_Z z * pow2 e) (binary_normalize Float.prec Float.emax z e sz).
Proof.
  destruct z as [|p|p]; try lia. intros _. cbn [binary_normalize].
  apply binary_round_rounded.
Qed.

Lemma binary_normalize_neg (z : Z) (e : Z) (sz : bool) :
  z < 0 ->
  exists f, rounded (inject_Z (- z) * pow2 e) f /\
            binary_normalize Float.prec Float.emax z e sz = SFopp f.
Proof.
  destruct z as [|p|p]; try lia. intros _. cbn [binary_normalize].
  exists (binary_round Float.prec Float.emax false p e).
  split; [apply binary_round_rounded | apply binary_round_opp].
Qed.

Lemma aligned_value (m : positive) (e ez : Z) :
  ez <= e ->
  (inject_Z (Z.pos (fst (shl_align m e ez))) * pow2 ez == F2Q m e)%Q.
Proof.
  intros H. pose proof (shl_align_value m e ez) as Hv.
  destruct (shl_align_spec m e ez) as (He & _).
  unfold F2Q in Hv at 1. rewrite He in Hv.
  replace (Z.min e ez) with ez in Hv by lia. exact Hv.
Qed.

Theorem SFadd_rounded (m1 m2 : positive) (e1 e2 : Z) :
  rounded (F2Q m1 e1 + F2Q m2 e2)
    (Float.add (S754_finite false m1 e1) (S754_finite false m2 e2)).
Proof.
  unfold Float.add. cbn [SFadd cond_Zopp].
  set (ez := Z.min e1 e2).
  apply (rounded_ext
    (inject_Z (Z.pos (fst (shl_align m1 e1 ez)) + Z.pos (fst (shl_align m2 e2 ez))) * pow2 ez)).
  - rewrite inject_Z_plus, Qmult_plus_distr_l.
    rewrite !aligned_value by (subst ez; lia). reflexivity.
  - apply binary_normalize_pos. lia.
Qed.

Lemma xscale_mono (c : Q) (x y : xval) :
  (0 < c)%Q -> xle x y -> xle (xscale c x) (xscale c y).
Proof.
  intros Hc. destruct x as [|p|], y as [|q|]; cbn; auto.
  intros H. apply Qmult_le_r; assumption.
Qed.

Lemma xsub_from_anti (c : Q) (x y : xval) :
  xle x y -> xle (xsub_from c y) (xsub_from c x).
Proof. destruct x as [|p|], y as [|q|]; cbn; auto. intros H. lra. Qed.

Lemma xadd_mono_l (x y z : xval) : xle x y -> xle (xadd x z) (xadd y z).
Proof.
  destruct x as [|p|], y as [|q|], z as [|r|]; cbn; auto. intros H. lra.
Qed.

Lemma xadd_mono_r (x y z : xval) : xle x y -> xle (xadd z x) (xadd z y).
Proof.
  destruct x as [|p|], y as [|q|], z as [|r|]; cbn; auto. intros H. lra.
Qed.

(** A valid positive float is its own rounding. *)
Lemma rounded_self (m : positive) (e : Z) :
  bounded Float.prec Float.emax m e = true ->
  rounded (F2Q m e) (S754_finite false m e).
Proof.
  intros Hb. destruct (bounded_digits m e Hb) as (He & Hhi & Hlo).
  exists (shr_record_of_loc (Z.pos m) loc_Exact), e.
  split; [|split; [|split]].
  - split; [lia|]. split.
    + rewrite (Z.add_comm e 53). apply scaled_lt. unfold F2Q.
      rewrite <- Qmult_assoc, pow2_opp, Qmult_1_r, (pow2_inject 53) by lia.
      rewrite <- Zlt_Qlt. exact Hhi.
    + intros Hem. rewrite (Z.add_comm e 52). apply scaled_ge. unfold F2Q.
      rewrite <- Qmult_assoc, pow2_opp, Qmult_1_r, (pow2_inject 52) by lia.
      rewrite <- Zle_Qle. auto.
  - apply inbetween_exact. reflexivity.
  - cbn. lia.
  - unfold rne. cbn [shr_record_of_loc shr_m loc_of_shr_record round_nearest_even].
    rewrite finish_small by lia. destruct (Z.leb_spec e 971); [reflexivity|lia].
Qed.

Lemma sround_pos (q : Q) (f : float) : (0 < q)%Q -> rounded q f -> sround q f.
Proof. intros Hq H. right; left. auto. Qed.

Lemma sround_zero (q : Q) (s : bool) : (q == 0)%Q -> sround q (S754_zero s).
Proof. intros Hq. left. eauto. Qed.

Lemma sround_neg (q : Q) (g : float) :
  (q < 0)%Q -> rounded (- q) g -> sround q (SFopp g).
Proof. intros Hq H. right; right. eauto. Qed.

(** Division by a positive finite float. *)
Lemma SFdiv_neg (m m2 : positive) (e e2 : Z) :
  Float.div (S754_finite true m e) (S754_finite false m2 e2) =
  SFopp (Float.div (S754_finite false m e) (S754_finite false m2 e2)).
Proof.
  unfold Float.div. cbn [SFdiv xorb].
  destruct (SFdiv_core_binary _ _ _ _ _ _) as [[mz ez] lz].
  apply binary_round_aux_opp.
Qed.

Theorem div_rounds (a : float) (m2 : positive) (e2 : Z) :
  Float.is_nan a = false ->
  rounds_to (xscale (/ F2Q m2 e2) (value a)) (Float.div a (S754_finite false m2 e2)).
Proof.
  pose proof (F2Q_pos m2 e2) as Hc.
  assert (0 < / F2Q m2 e2)%Q as Hc' by (apply Qinv_lt_0_compat; exact Hc).
  destruct a as [s|s| |s m e]; try discriminate; intros _.
  - cbn. apply sround_zero. ring.
  - destruct s; reflexivity.
  - pose proof (F2Q_pos m e) as Hm.
    assert (0 < F2Q m e * / F2Q m2 e2)%Q as Hq by (apply Qmult_lt_0_compat; assumption).
    cbn [value xscale rounds_to]. destruct s.
    + rewrite SFdiv_neg. apply sround_neg; [lra|].
      apply (rounded_ext (F2Q m e / F2Q m2 e2)); [unfold Qdiv; ring|].
      apply SFdiv_rounded.
    + apply sround_pos; [exact Hq|]. apply SFdiv_rounded.
Qed.

(** Multiplication by a valid positive finite float. *)
Lemma SFmul_neg_l (m m2 : positive) (e e2 : Z) :
  Float.mul (S754_finite true m e) (S754_finite false m2 e2) =
  SFopp (Float.mul (S754_finite false m e) (S754_finite false m2 e2)).
Proof. unfold Float.mul. cbn [SFmul xorb]. apply binary_round_aux_opp. Qed.

Lemma SFmul_neg_r (m m2 : positive) (e e2 : Z) :
  Float.mul (S754_finite false m2 e2) (S754_finite true m e) =
  SFopp (Float.mul (S754_finite false m2 e2) (S754_finite false m e)).
Proof. unfold Float.mul. cbn [SFmul xorb]. apply binary_round_aux_opp. Qed.

Theorem mul_rounds_r (a : float) (m2 : positive) (e2 : Z) :
  Float.is_nan a = false -> Float.valid a = true ->
  bounded Float.prec Float.emax m2 e2 = true ->
  rounds_to (xscale (F2Q m2 e2) (value a)) (Float.mul a (S754_finite false m2 e2)).
Proof.
  pose proof (F2Q_pos m2 e2) as Hc.
  destruct a as [s|s| |s m e]; try discriminate; intros _ Hv Hb.
  - cbn. apply sround_zero. ring.
  - destruct s; reflexivity.
  - pose proof (F2Q_pos m e) as Hm.
    assert (0 < F2Q m e * F2Q m2 e2)%Q as Hq by (apply Qmult_lt_0_compat; assumption).
    cbn [value xscale rounds_to]. destruct s.
    + rewrite SFmul_neg_l. apply sround_neg; [lra|].
      apply (rounded_ext (F2Q m e * F2Q m2 e2)); [ring|].
      apply SFmul_rounded; assumption.
    + apply sround_pos; [exact Hq|]. apply SFmul_rounded; assumption.
Qed.

Theorem mul_rounds_l (a : float) (m1 : positive) (e1 : Z) :
  Float.is_nan a = false -> Float.valid a = true ->
  bounded Float.prec Float.emax m1 e1 = true ->
  rounds_to (xscale (F2Q m1 e1) (value a)) (Float.mul (S754_finite false m1 e1) a).
Proof.
  pose proof (F2Q_pos m1 e1) as Hc.
  destruct a as [s|s| |s m e]; try discriminate; intros _ Hv Hb.
  - cbn. apply sround_zero. ring.
  - destruct s; reflexivity.
  - pose proof (F2Q_pos m e) as Hm.
    assert (0 < F2Q m e * F2Q m1 e1)%Q as Hq by (apply Qmult_lt_0_compat; assumption).
    cbn [value xscale rounds_to]. destruct s.
    + rewrite SFmul_neg_r. apply sround_neg; [lra|].
      apply (rounded_ext (F2Q m1 e1 * F2Q m e)); [ring|].
      apply SFmul_rounded; assumption.
    + apply sround_pos; [exact Hq|].
      apply (rounded_ext (F2Q m1 e1 * F2Q m e)); [ring|].
      apply SFmul_rounded; assumption.
Qed.

Lemma sround_ext (p q : Q) (f : float) : (p == q)%Q -> sround p f -> sround q f.
Proof.
  intros E [(Hp & Hs)|[(Hp & H)|(Hp & g & H & Hf)]].
  - left. split; [rewrite <- E; exact Hp | exact Hs].
  - right; left. split; [rewrite <- E; exact Hp | exact (rounded_ext p q f E H)].
  - right; right. split; [rewrite <- E; exact Hp|]. exists g. split; [|exact Hf].
    apply (rounded_ext (- p)); [rewrite E; reflexivity | exact H].
Qed.

Lemma sround_ext_iff (p q : Q) (f : float) : (q == p)%Q -> sround q f <-> sround p f.
Proof. intros E. split; apply sround_ext; [exact E | symmetry; exact E]. Qed.

(** Subtraction from a valid positive finite float. *)
Lemma binary_normalize_sround (z e : Z) :
  sround (inject_Z z * pow2 e) (binary_normalize Float.prec Float.emax z e false).
Proof.
  pose proof (pow2_pos e) as Hp.
  destruct (Z.lt_trichotomy z 0) as [Hz|[->|Hz]].
  - destruct (binary_normalize_neg z e false Hz) as (g & Hg & ->).
    assert (inject_Z z < 0)%Q as Hz'
      by (change 0%Q with (inject_Z 0); rewrite <- Zlt_Qlt; exact Hz).
    apply sround_neg.
    + assert (inject_Z z * pow2 e < 0 * pow2 e)%Q by (apply Qmult_lt_r; assumption).
      lra.
    + apply (rounded_ext (inject_Z (- z) * pow2 e)); [rewrite inject_Z_opp; ring|exact Hg].
  - apply sround_zero. ring.
  - assert (0 < inject_Z z)%Q as Hz'
      by (change 0%Q with (inject_Z 0); rewrite <- Zlt_Qlt; exact Hz).
    apply sround_pos; [apply Qmult_lt_0_compat; assumption|].
    apply binary_normalize_pos. exact Hz.
Qed.

Theorem sub_rounds (a : float) (mc : positive) (ec : Z) :
  Float.is_nan a = false ->
  bounded Float.prec Float.emax mc ec = true ->
  rounds_to (xsub_from (F2Q mc ec) (value a)) (Float.sub (S754_finite false mc ec) a).
Proof.
  pose proof (F2Q_pos mc ec) as Hc.
  destruct a as [s|s| |s m e]; try discriminate; intros _ Hb.
  - cbn. apply sround_pos; [lra|].
    apply (rounded_ext (F2Q mc ec)); [ring|]. apply rounded_self. exact Hb.
  - destruct s; reflexivity.
  - cbn [value xsub_from rounds_to]. unfold Float.sub. cbn [SFsub cond_Zopp].
    set (ez := Z.min ec e).
    match goal with |- sround _ (binary_normalize _ _ ?z _ _) =>
      apply (fun H => proj1 (sround_ext_iff _ (inject_Z z * pow2 ez) _ H)
                        (binary_normalize_sround z ez))
    end.
    pose proof (aligned_value mc ec ez ltac:(subst ez; lia)) as HA.
    pose proof (aligned_value m e ez ltac:(subst ez; lia)) as HB.
    unfold Z.sub. destruct s; cbn [cond_Zopp];
      rewrite ?Z.opp_involutive, ?inject_Z_plus, ?inject_Z_opp; lra.
Qed.

(** Addition of two floats that are not below zero. *)
Theorem add_rounds (a b : float) :
  nonneg a = true -> Float.valid a = true ->
  nonneg b = true -> Float.valid b = true ->
  rounds_to (xadd (value a) (value b)) (Float.add a b).
Proof.
  destruct a as [s1|[|]| |[|] m1 e1], b as [s2|[|]| |[|] m2 e2];
    try discriminate; intros _ Ha _ Hb; try reflexivity.
  - cbn [value xadd rounds_to]. destruct s1, s2; apply sround_zero; ring.
  - cbn [value xadd rounds_to]. pose proof (F2Q_pos m2 e2).
    apply sround_pos; [lra|].
    apply (rounded_ext (F2Q m2 e2)); [ring | apply rounded_self; exact Hb].
  - cbn [value xadd rounds_to]. pose proof (F2Q_pos m1 e1).
    apply sround_pos; [lra|].
    apply (rounded_ext (F2Q m1 e1)); [ring | apply rounded_self; exact Ha].
  - cbn [value xadd rounds_to]. pose proof (F2Q_pos m1 e1). pose proof (F2Q_pos m2 e2).
    apply sround_pos; [lra | apply SFadd_rounded].
Qed.

Lemma le_zero_nonneg (s : bool) (f : float) :
  SFleb (S754_zero s) f = true <-> nonneg f = true.
Proof.
  destruct f as [s'|[|]| |[|] m e]; cbn; split; intros H; try reflexivity; discriminate.
Qed.

Lemma nonneg_value (f : float) : nonneg f = true -> xle (Fin 0) (value f).
Proof.
  destruct f as [s'|[|]| |[|] m e]; try discriminate; intros _; cbn;
    first [exact I | apply Qle_refl | apply Qlt_le_weak, F2Q_pos].
Qed.

Lemma rounds_to_nonneg (x : xval) (f : float) :
  rounds_to x f -> xle (Fin 0) x -> nonneg f = true.
Proof.
  intros Hf Hx. apply (le_zero_nonneg false).
  apply (rounds_to_mono (Fin 0) x); [apply sround_zero; reflexivity | exact Hf | exact Hx].
Qed.

(** ** Monotonicity of the operations of the calculator *)

Lemma div_mono (a b : float) (m2 : positive) (e2 : Z) :
  Float.valid a = true -> Float.valid b = true -> SFleb a b = true ->
  SFleb (Float.div a (S754_finite false m2 e2)) (Float.div b (S754_finite false m2 e2))
    = true.
Proof.
  intros Ha Hb Hle. destruct (SFleb_nan _ _ Hle) as (Hna & Hnb).
  eapply rounds_to_mono; [apply div_rounds; exact Hna | apply div_rounds; exact Hnb|].
  apply xscale_mono; [apply Qinv_lt_0_compat, F2Q_pos | apply value_le; assumption].
Qed.

Lemma mul_mono_r (a b : float) (m2 : positive) (e2 : Z) :
  bounded Float.prec Float.emax m2 e2 = true ->
  Float.valid a = true -> Float.valid b = true -> SFleb a b = true ->
  SFleb (Float.mul a (S754_finite false m2 e2)) (Float.mul b (S754_finite false m2 e2))
    = true.
Proof.
  intros Hc Ha Hb Hle. destruct (SFleb_nan _ _ Hle) as (Hna & Hnb).
  eapply rounds_to_mono; [apply mul_rounds_r; assumption | apply mul_rounds_r; assumption|].
  apply xscale_mono; [apply F2Q_pos | apply value_le; assumption].
Qed.

Lemma mul_mono_l (a b : float) (m1 : positive) (e1 : Z) :
  bounded Float.prec Float.emax m1 e1 = true ->
  Float.valid a = true -> Float.valid b = true -> SFleb a b = true ->
  SFleb (Float.mul (S754_finite false m1 e1) a) (Float.mul (S754_finite false m1 e1) b)
    = true.
Proof.
  intros Hc Ha Hb Hle. destruct (SFleb_nan _ _ Hle) as (Hna & Hnb).
  eapply rounds_to_mono; [apply mul_rounds_l; assumption | apply mul_rounds_l; assumption|].
  apply xscale_mono; [apply F2Q_pos | apply value_le; assumption].
Qed.

Lemma sub_anti (a b : float) (mc : positive) (ec : Z) :
  bounded Float.prec Float.emax mc ec = true ->
  Float.valid a = true -> Float.valid b = true -> SFleb a b = true ->
  SFleb (Float.sub (S754_finite false mc ec) b) (Float.sub (S754_finite false mc ec) a)
    = true.
Proof.
  intros Hc Ha Hb Hle. destruct (SFleb_nan _ _ Hle) as (Hna & Hnb).
  eapply rounds_to_mono; [apply sub_rounds; assumption | apply sub_rounds; assumption|].
  apply xsub_from_anti. apply value_le; assumption.
Qed.

Lemma add_mono_l (a b c : float) :
  nonneg a = true -> Float.valid a = true ->
  nonneg b = true -> Float.valid b = true ->
  nonneg c = true -> Float.valid c = true ->
  SFleb a b = true -> SFleb (Float.add a c) (Float.add b c) = true.
Proof.
  intros Hna Ha Hnb Hb Hnc Hc Hle.
  eapply rounds_to_mono; [apply add_rounds; assumption | apply add_rounds; assumption|].
  apply xadd_mono_l. apply value_le; assumption.
Qed.

Lemma add_mono_r (a b c : float) :
  nonneg a = true -> Float.valid a = true ->
  nonneg b = true -> Float.valid b = true ->
  nonneg c = true -> Float.valid c = true ->
  SFleb a b = true -> SFleb (Float.add c a) (Float.add c b) = true.
Proof.
  intros Hna Ha Hnb Hb Hnc Hc Hle.
  eapply rounds_to_mono; [apply add_rounds; assumption | apply add_rounds; assumption|].
  apply xadd_mono_r. apply value_le; assumption.
Qed.

(** Clamping and the maximum with zero. *)
Lemma SFleb_not_gt (f g : float) : SFleb f g = true -> SFltb g f = false.
Proof.
  intros H. destruct (SFltb g f) eqn:Hlt; [|reflexivity].
  pose proof (SFleb_lt_trans _ _ _ H Hlt) as Hff.
  destruct (SFltb_nan _ _ Hff) as (Hn & _).
  apply SFltb_key in Hff; auto. apply key_lt_spec in Hff. lia.
Qed.

Lemma clamp_mono (v1 v2 lo hi : float) :
  SFleb lo hi = true -> SFleb v1 v2 = true ->
  SFleb (clamp v1 lo hi) (clamp v2 lo hi) = true.
Proof.
  intros Hlh Hv. destruct (SFleb_nan _ _ Hlh) as (Hnlo & Hnhi).
  destruct (SFleb_nan _ _ Hv) as (Hn1 & Hn2).
  unfold clamp, Float.lt, Float.gt.
  destruct (SFltb v2 lo) eqn:H2lo.
  - rewrite (SFleb_lt_trans _ _ _ Hv H2lo). apply SFleb_refl. exact Hnlo.
  - pose proof (SFltb_false_le _ _ Hn2 Hnlo H2lo) as Hlo2.
    destruct (SFltb hi v2) eqn:H2hi.
    + destruct (SFltb v1 lo); [exact Hlh|].
      destruct (SFltb hi v1) eqn:H1hi; [apply SFleb_refl; exact Hnhi|].
      apply SFltb_false_le; assumption.
    + destruct (SFltb v1 lo); [exact Hlo2|].
      destruct (SFltb hi v1) eqn:H1hi; [|exact Hv].
      rewrite (SFltb_le_trans _ _ _ H1hi Hv) in H2hi. discriminate.
Qed.

Lemma clamp_range (v lo hi : float) :
  Float.is_nan v = false -> SFleb lo hi = true ->
  SFleb lo (clamp v lo hi) = true /\ SFleb (clamp v lo hi) hi = true.
Proof.
  intros Hn Hlh. destruct (SFleb_nan _ _ Hlh) as (Hnlo & Hnhi).
  unfold clamp, Float.lt, Float.gt.
  destruct (SFltb v lo) eqn:Hlo; [split; [apply SFleb_refl|]; assumption|].
  pose proof (SFltb_false_le _ _ Hn Hnlo Hlo) as Hlo'.
  destruct (SFltb hi v) eqn:Hhi; [split; [|apply SFleb_refl]; assumption|].
  split; [exact Hlo' | apply SFltb_false_le; assumption].
Qed.

Lemma max_with_zero_mono (v1 v2 : float) :
  SFleb v1 v2 = true -> SFleb (max_with_zero v1) (max_with_zero v2) = true.
Proof.
  intros Hv. destruct (SFleb_nan _ _ Hv) as (Hn1 & Hn2).
  unfold max_with_zero, Float.gt. change (Float.of_int 0) with (S754_zero false).
  destruct (SFltb (S754_zero false) v1) eqn:H1.
  - rewrite (SFltb_le_trans _ _ _ H1 Hv). exact Hv.
  - destruct (SFltb (S754_zero false) v2) eqn:H2; [apply SFltb_le; exact H2 | reflexivity].
Qed.

Lemma max_with_zero_nonneg (v : float) :
  nonneg (max_with_zero v) = true /\
  (Float.valid v = true -> Float.valid (max_with_zero v) = true).
Proof.
  unfold max_with_zero, Float.gt. change (Float.of_int 0) with (S754_zero false).
  destruct (SFltb (S754_zero false) v) eqn:H; [|split; reflexivity].
  split; [|auto]. apply (le_zero_nonneg false). apply SFltb_le. exact H.
Qed.

(** * The score calculator *)

Lemma solar_score_clamp (solar : float) :
  to_float (solar_score solar) = spec_solar_score solar.
Proof.
  unfold solar_score, spec_solar_score, clamp, py_min, py_max, num_gt, num_lt.
  cbn [to_float].
  set (v := Float.mul _ _).
  destruct (Float.lt v (Float.of_int 0)); [reflexivity|].
  cbn [to_float]. unfold Float.gt, Float.lt.
  destruct (SFltb (Float.of_int 100) v); reflexivity.
Qed.

Lemma aqi_score_max (aqi : float) :
  to_float (aqi_score aqi) = spec_aqi_score aqi.
Proof.
  unfold aqi_score, spec_aqi_score, max_with_zero, py_max, num_gt, num_lt, Float.gt.
  cbn [to_float]. unfold Float.lt.
  destruct (SFltb (Float.of_int 0) _); reflexivity.
Qed.

(** The three bands of [classify], with their boundaries. *)
Lemma classify_bands (c : float) :
  (Float.ge c (Float.of_int 70) = true -> classify c = ("High"%string, 80)) /\
  (Float.ge c (Float.of_int 40) = true -> Float.lt c (Float.of_int 70) = true ->
     classify c = ("Medium"%string, 50)) /\
  (Float.lt c (Float.of_int 40) = true -> classify c = ("Low"%string, 20)) /\
  (Float.eqb c (Float.of_int 70) = true -> classify c = ("High"%string, 80)) /\
  (Float.eqb c (Float.of_int 40) = true -> classify c = ("Medium"%string, 50)).
Proof.
  unfold classify. repeat split.
  - intros ->. reflexivity.
  - intros H40 H70. rewrite (lt_not_ge _ _ H70), H40. reflexivity.
  - intros H40. rewrite (lt_not_ge _ _ (lt_40_lt_70 _ H40)), (lt_not_ge _ _ H40).
    reflexivity.
  - intros H. rewrite (eqb_ge _ _ H). reflexivity.
  - intros H. rewrite (eqb_40_not_ge_70 _ H).
    rewrite (eqb_ge _ _ H). reflexivity.
Qed.

(** C2: the combined score is classified by fixed thresholds, inclusive
    below: at least 70 gives High and 80 years, at least 40 and below 70
    gives Medium and 50 years, below 40 gives Low and 20 years; a
    combined score equal to 70 is High and one equal to 40 is Medium. *)
Theorem calculate_thresholds (solar aqi : float) :
  let c := combined_score solar aqi in
  (Float.ge c (Float.of_int 70) = true ->
     calculate_livability_score solar aqi = ("High"%string, 80)) /\
  (Float.ge c (Float.of_int 40) = true -> Float.lt c (Float.of_int 70) = true ->
     calculate_livability_score solar aqi = ("Medium"%string, 50)) /\
  (Float.lt c (Float.of_int 40) = true ->
     calculate_livability_score solar aqi = ("Low"%string, 20)) /\
  (Float.eqb c (Float.of_int 70) = true ->
     calculate_livability_score solar aqi = ("High"%string, 80)) /\
  (Float.eqb c (Float.of_int 40) = true ->
     calculate_livability_score solar aqi = ("Medium"%string, 50)).
Proof. exact (classify_bands (combined_score solar aqi)). Qed.

(** The bands of C2 on five inputs: combined scores 100, 50, 0, exactly
    70 and exactly 40. *)
Lemma calculate_thresholds_witness :
  calculate_livability_score (Float.of_int 5) (Float.of_int 0) = ("High"%string, 80) /\
  calculate_livability_score two_and_a_half (Float.of_int 50) = ("Medium"%string, 50) /\
  calculate_livability_score (Float.of_int 0) (Float.of_int 100) = ("Low"%string, 20) /\
  calculate_livability_score (Float.of_int 5) (Float.of_int 60) = ("High"%string, 80) /\
  calculate_livability_score (Float.of_int 0) (Float.of_int 20) = ("Medium"%string, 50).
Proof.
  split; [|split; [|split; [|split]]].
  - destruct (calculate_thresholds (Float.of_int 5) (Float.of_int 0))
      as (H & _). apply H. vm_compute. reflexivity.
  - destruct (calculate_thresholds two_and_a_half (Float.of_int 50))
      as (_ & H & _). apply H; vm_compute; reflexivity.
  - destruct (calculate_thresholds (Float.of_int 0) (Float.of_int 100))
      as (_ & _ & H & _). apply H. vm_compute. reflexivity.
  - destruct (calculate_thresholds (Float.of_int 5) (Float.of_int 60))
      as (_ & _ & _ & H & _). apply H. vm_compute. reflexivity.
  - destruct (calculate_thresholds (Float.of_int 0) (Float.of_int 20))
      as (_ & _ & _ & _ & H). apply H. vm_compute. reflexivity.
Defined.

Lemma combined_score_spec (solar aqi : float) :
  combined_score solar aqi = spec_combined solar aqi.
Proof.
  unfold combined_score, spec_combined.
  rewrite solar_score_clamp, aqi_score_max. reflexivity.
Qed.

(** ** Monotonicity of the scores *)

Lemma of_int_5 : Float.of_int 5 = S754_finite false 5629499534213120 (-50).
Proof. reflexivity. Qed.

Lemma bounded_5 : bounded Float.prec Float.emax 5629499534213120 (-50) = true.
Proof. vm_compute. reflexivity. Qed.

Lemma bounded_100 : bounded Float.prec Float.emax 7036874417766400 (-46) = true.
Proof. vm_compute. reflexivity. Qed.

Lemma bounded_half : bounded Float.prec Float.emax 4503599627370496 (-53) = true.
Proof. vm_compute. reflexivity. Qed.

Lemma zero_le_100 : SFleb (Float.of_int 0) (Float.of_int 100) = true.
Proof. vm_compute. reflexivity. Qed.

(** [solar / 5 * 100] is never NaN on a float other than NaN, and it is
    monotone. *)
Lemma scaled_solar_valid (solar : float) :
  Float.is_nan solar = false ->
  let v := Float.mul (Float.div solar (Float.of_int 5)) (Float.of_int 100) in
  Float.valid v = true /\ Float.is_nan v = false.
Proof.
  intros Hn v. subst v. rewrite of_int_5, of_int_100.
  destruct (rounds_to_valid _ _ (div_rounds solar 5629499534213120 (-50) Hn)) as (Hv & Hn').
  exact (rounds_to_valid _ _ (mul_rounds_r _ 7036874417766400 (-46) Hn' Hv bounded_100)).
Qed.

Lemma scaled_solar_mono (s1 s2 : float) :
  Float.valid s1 = true -> Float.valid s2 = true -> SFleb s1 s2 = true ->
  SFleb (Float.mul (Float.div s1 (Float.of_int 5)) (Float.of_int 100))
        (Float.mul (Float.div s2 (Float.of_int 5)) (Float.of_int 100)) = true.
Proof.
  intros H1 H2 Hle. destruct (SFleb_nan _ _ Hle) as (Hn1 & Hn2).
  rewrite of_int_5, of_int_100.
  apply (mul_mono_r _ _ _ _ bounded_100).
  - apply (rounds_to_valid _ _ (div_rounds s1 _ _ Hn1)).
  - apply (rounds_to_valid _ _ (div_rounds s2 _ _ Hn2)).
  - apply div_mono; assumption.
Qed.

Lemma clamp_valid (v lo hi : float) :
  Float.valid v = true -> Float.valid lo = true -> Float.valid hi = true ->
  Float.valid (clamp v lo hi) = true.
Proof.
  intros Hv Hlo Hhi. unfold clamp.
  destruct (Float.lt v lo); [exact Hlo|]. destruct (Float.gt v hi); assumption.
Qed.

(** The solar sub-score lies between 0 and 100 unless [solar] is NaN. *)
Lemma spec_solar_range (solar : float) :
  Float.is_nan solar = false ->
  SFleb (Float.of_int 0) (spec_solar_score solar) = true /\
  SFleb (spec_solar_score solar) (Float.of_int 100) = true /\
  Float.valid (spec_solar_score solar) = true.
Proof.
  intros Hn. destruct (scaled_solar_valid solar Hn) as (Hv & Hn').
  unfold spec_solar_score.
  destruct (clamp_range _ _ _ Hn' zero_le_100) as (H0 & H100).
  split; [exact H0|]. split; [exact H100|].
  apply clamp_valid; [exact Hv | reflexivity | reflexivity].
Qed.

Lemma spec_solar_mono (s1 s2 : float) :
  Float.valid s1 = true -> Float.valid s2 = true -> SFleb s1 s2 = true ->
  SFleb (spec_solar_score s1) (spec_solar_score s2) = true.
Proof.
  intros H1 H2 Hle. unfold spec_solar_score.
  apply clamp_mono; [exact zero_le_100 | apply scaled_solar_mono; assumption].
Qed.

(** The AQI sub-score is a valid float that is not below zero, and it
    does not increase with [aqi]. *)
Lemma spec_aqi_nonneg (aqi : float) :
  nonneg (spec_aqi_score aqi) = true /\ Float.valid (spec_aqi_score aqi) = true.
Proof.
  unfold spec_aqi_score.
  destruct (max_with_zero_nonneg (Float.sub (Float.of_int 100) aqi)) as (Hnn & Hv).
  split; [exact Hnn|]. apply Hv.
  destruct (Float.is_nan aqi) eqn:Hn.
  - destruct aqi; try discriminate. reflexivity.
  - rewrite of_int_100. apply (rounds_to_valid _ _ (sub_rounds aqi _ _ Hn bounded_100)).
Qed.

Lemma spec_aqi_anti (a1 a2 : float) :
  Float.valid a1 = true -> Float.valid a2 = true -> SFleb a1 a2 = true ->
  SFleb (spec_aqi_score a2) (spec_aqi_score a1) = true.
Proof.
  intros H1 H2 Hle. unfold spec_aqi_score. apply max_with_zero_mono.
  rewrite of_int_100. apply sub_anti; [exact bounded_100 | assumption..].
Qed.

(** Halving keeps a float that is not below zero so, and is monotone. *)
Lemma half_nonneg (u : float) :
  nonneg u = true -> Float.valid u = true ->
  nonneg (Float.mul Float.half u) = true /\ Float.valid (Float.mul Float.half u) = true.
Proof.
  intros Hnn Hv. pose proof (nonneg_not_nan u Hnn) as Hn.
  pose proof (mul_rounds_l u _ _ Hn Hv bounded_half) as Hr.
  split; [|apply (rounds_to_valid _ _ Hr)].
  apply (rounds_to_nonneg _ _ Hr).
  pose proof (nonneg_value u Hnn) as H0.
  apply (xscale_mono (F2Q 4503599627370496 (-53))) in H0; [|apply F2Q_pos].
  cbn [xscale] in H0. destruct (xscale _ (value u)) as [|q|]; cbn in *; auto. lra.
Qed.

Lemma half_mono (u1 u2 : float) :
  Float.valid u1 = true -> Float.valid u2 = true -> SFleb u1 u2 = true ->
  SFleb (Float.mul Float.half u1) (Float.mul Float.half u2) = true.
Proof. intros H1 H2 Hle. apply (mul_mono_l _ _ _ _ bounded_half); assumption. Qed.

Lemma combined_mono_solar (s1 s2 aqi : float) :
  Float.valid s1 = true -> Float.valid s2 = true -> SFleb s1 s2 = true ->
  SFleb (spec_combined s1 aqi) (spec_combined s2 aqi) = true.
Proof.
  intros H1 H2 Hle. destruct (SFleb_nan _ _ Hle) as (Hn1 & Hn2).
  destruct (spec_solar_range s1 Hn1) as (H10 & _ & Hv1).
  destruct (spec_solar_range s2 Hn2) as (H20 & _ & Hv2).
  apply (le_zero_nonneg false) in H10, H20.
  destruct (spec_aqi_nonneg aqi) as (Hna & Hva).
  destruct (half_nonneg _ H10 Hv1), (half_nonneg _ H20 Hv2), (half_nonneg _ Hna Hva).
  unfold spec_combined. apply add_mono_l; try assumption.
  apply half_mono; try assumption. apply spec_solar_mono; assumption.
Qed.

Lemma combined_anti_aqi (solar a1 a2 : float) :
  Float.is_nan solar = false ->
  Float.valid a1 = true -> Float.valid a2 = true -> SFleb a1 a2 = true ->
  SFleb (spec_combined solar a2) (spec_combined solar a1) = true.
Proof.
  intros Hn H1 H2 Hle.
  destruct (spec_solar_range solar Hn) as (H0 & _ & Hv).
  apply (le_zero_nonneg false) in H0.
  destruct (spec_aqi_nonneg a1) as (Hn1 & Hv1), (spec_aqi_nonneg a2) as (Hn2 & Hv2).
  destruct (half_nonneg _ H0 Hv), (half_nonneg _ Hn1 Hv1), (half_nonneg _ Hn2 Hv2).
  unfold spec_combined. apply add_mono_r; try assumption.
  apply half_mono; try assumption. apply spec_aqi_anti; assumption.
Qed.

(** With a NaN solar score the combined score is NaN, whatever the
    index. *)
Lemma combined_nan (aqi : float) : spec_combined Float.nan aqi = Float.nan.
Proof. reflexivity. Qed.

Lemma classify_mono (c1 c2 : float) :
  SFleb c1 c2 = true -> (classify c1).2 <= (classify c2).2.
Proof.
  intros Hle. unfold classify, Float.ge.
  destruct (SFleb (Float.of_int 70) c1) eqn:H70.
  - rewrite (SFleb_trans _ _ _ H70 Hle). cbn. lia.
  - destruct (SFleb (Float.of_int 40) c1) eqn:H40.
    + rewrite (SFleb_trans _ _ _ H40 Hle).
      destruct (SFleb (Float.of_int 70) c2); cbn; lia.
    + destruct (SFleb (Float.of_int 70) c2); [cbn; lia|].
      destruct (SFleb (Float.of_int 40) c2); cbn; lia.
Qed.

(** C10: the calculator is monotone on binary64 numbers. For a fixed
    [aqi], a larger [solar] never gives a smaller combined score, nor
    fewer habitable years; for a fixed [solar], a larger [aqi] never
    gives a larger combined score, nor more habitable years. *)
Theorem calculate_monotone (lo hi other : float) :
  Float.valid lo = true -> Float.valid hi = true -> Float.le lo hi = true ->
  (Float.lt (combined_score hi other) (combined_score lo other) = false /\
   (calculate_livability_score lo other).2 <= (calculate_livability_score hi other).2) /\
  (Float.gt (combined_score other hi) (combined_score other lo) = false /\
   (calculate_livability_score other hi).2 <= (calculate_livability_score other lo).2).
Proof.
  intros Hlo Hhi Hle. unfold Float.le in Hle. unfold calculate_livability_score.
  rewrite !combined_score_spec.
  split.
  - pose proof (combined_mono_solar lo hi other Hlo Hhi Hle) as H.
    split; [apply SFleb_not_gt; exact H | apply classify_mono; exact H].
  - destruct (Float.is_nan other) eqn:Hn.
    + destruct other; try discriminate. rewrite !combined_nan. split; [reflexivity|lia].
    + pose proof (combined_anti_aqi other lo hi Hn Hlo Hhi Hle) as H.
      split; [apply SFleb_not_gt; exact H | apply classify_mono; exact H].
Qed.

(** C10 between solar scores 1 and 4 at index 50, and between indices
    10 and 90 at solar score 3. *)
Lemma calculate_monotone_witness :
  (calculate_livability_score (Float.of_int 1) (Float.of_int 50)).2
    <= (calculate_livability_score (Float.of_int 4) (Float.of_int 50)).2 /\
  (calculate_livability_score (Float.of_int 3) (Float.of_int 90)).2
    <= (calculate_livability_score (Float.of_int 3) (Float.of_int 10)).2.
Proof.
  split.
  - apply (calculate_monotone (Float.of_int 1) (Float.of_int 4) (Float.of_int 50));
      vm_compute; reflexivity.
  - apply (calculate_monotone (Float.of_int 10) (Float.of_int 90) (Float.of_int 3));
      vm_compute; reflexivity.
Defined.

(** C1: the scores follow the reference algorithm: the solar sub-score
    is [solar / 5 * 100] clamped to the range from 0 to 100, the AQI
    sub-score is the larger of 0 and [100 - aqi], the combined score is
    the equal-weight sum of the two, and the result is its class. The
    solar sub-score lies between 0 and 100 (a NaN input is carried
    through the clamp), and the AQI sub-score is never below 0. *)
Theorem calculate_follows_reference (solar aqi : float) :
  to_float (solar_score solar) = spec_solar_score solar /\
  to_float (aqi_score aqi) = spec_aqi_score aqi /\
  combined_score solar aqi = spec_combined solar aqi /\
  calculate_livability_score solar aqi = classify (spec_combined solar aqi) /\
  Float.is_nan solar
    || (Float.le (Float.of_int 0) (to_float (solar_score solar))
        && Float.le (to_float (solar_score solar)) (Float.of_int 100)) = true /\
  Float.le (Float.of_int 0) (to_float (aqi_score aqi)) = true.
Proof.
  split; [apply solar_score_clamp|]. split; [apply aqi_score_max|].
  split; [apply combined_score_spec|]. split.
  - unfold calculate_livability_score. rewrite combined_score_spec. reflexivity.
  - rewrite solar_score_clamp, aqi_score_max. unfold Float.le. split.
    + destruct (Float.is_nan solar) eqn:Hn; [reflexivity|].
      destruct (spec_solar_range solar Hn) as (H0 & H100 & _).
      rewrite H0, H100. reflexivity.
    + apply (le_zero_nonneg false). apply spec_aqi_nonneg.
Qed.

(** ** Negative indices *)

(** Below a negative float, the next float down has the next
    mantissa. *)
Lemma lt_negative_le_next (x : float) (m : positive) (e : Z) :
  SFltb x (S754_finite true m e) = true ->
  SFleb x (S754_finite true (Pos.succ m) e) = true.
Proof.
  intros H. destruct (SFltb_nan _ _ H) as (Hx & _).
  apply SFltb_key in H; [|exact Hx|reflexivity].
  apply SFleb_key; [exact Hx|reflexivity|].
  apply key_lt_spec in H. apply key_le_spec.
  cbn [fkey fst snd] in *. rewrite Pos2Z.inj_succ. lia.
Qed.

(** C4 (counterexample): [-2^-60] is negative, yet the AQI sub-score it
    gives is exactly 100: the subtraction [100 - aqi] rounds to 100. *)
Lemma tiny_negative_aqi_scores_100 :
  Float.valid tiny_negative = true /\
  Float.lt tiny_negative (Float.of_int 0) = true /\
  to_float (aqi_score tiny_negative) = Float.of_int 100 /\
  Float.gt (to_float (aqi_score tiny_negative)) (Float.of_int 100) = false.
Proof. repeat split; vm_compute; reflexivity. Qed.

(** C4 (amended): the AQI sub-score has no upper clamp. For every
    negative binary64 [aqi] it is the float [100 - aqi] itself, which is
    at least 100; it exceeds 100 exactly when [aqi < -2^-47], and it is
    equal to 100 for [-2^-47 <= aqi < 0], where [100 - aqi] rounds to
    100. On [(0, -50)] the sub-score is 150, the combined score 75 and
    the result High with 80 years. *)
Theorem negative_aqi_score (aqi : float) :
  Float.valid aqi = true -> Float.lt aqi (Float.of_int 0) = true ->
  aqi_score aqi = NFloat (Float.sub (Float.of_int 100) aqi) /\
  Float.ge (to_float (aqi_score aqi)) (Float.of_int 100) = true /\
  (Float.lt aqi minus_2_pow_m47 = true ->
     Float.gt (to_float (aqi_score aqi)) (Float.of_int 100) = true) /\
  (Float.ge aqi minus_2_pow_m47 = true ->
     Float.eqb (to_float (aqi_score aqi)) (Float.of_int 100) = true) /\
  to_float (aqi_score (Float.of_int (-50))) = Float.of_int 150 /\
  combined_score (Float.of_int 0) (Float.of_int (-50)) = Float.of_int 75 /\
  calculate_livability_score (Float.of_int 0) (Float.of_int (-50)) = ("High"%string, 80).
Proof.
  intros Hv Hlt. unfold Float.ge, Float.gt, Float.le, Float.eqb, Float.lt in *.
  assert (SFleb (Float.of_int 100) (Float.sub (Float.of_int 100) aqi) = true) as Hge.
  { apply (SFleb_trans _ (Float.sub (Float.of_int 100) (Float.of_int 0)));
      [vm_compute; reflexivity|].
    rewrite of_int_100.
    apply sub_anti; [exact bounded_100 | exact Hv | reflexivity | apply SFltb_le; exact Hlt]. }
  assert (aqi_score aqi = NFloat (Float.sub (Float.of_int 100) aqi)) as Hs.
  { unfold aqi_score, py_max, num_gt, num_lt. cbn [to_float]. unfold Float.lt.
    rewrite (SFltb_le_trans (Float.of_int 0) (Float.of_int 100) _ eq_refl Hge).
    reflexivity. }
  rewrite Hs. cbn [to_float].
  split; [reflexivity|]. split; [exact Hge|].
  split; [|split; [|repeat split; vm_compute; reflexivity]].
  - intros H47.
    apply (SFltb_le_trans _ (Float.sub (Float.of_int 100) below_minus_2_pow_m47));
      [vm_compute; reflexivity|].
    rewrite of_int_100.
    apply sub_anti; [exact bounded_100 | exact Hv | reflexivity |].
    exact (lt_negative_le_next aqi _ _ H47).
  - intros H47. apply SFleb_antisym; [|exact Hge].
    apply (SFleb_trans _ (Float.sub (Float.of_int 100) minus_2_pow_m47));
      [|vm_compute; reflexivity].
    rewrite of_int_100.
    apply sub_anti; [exact bounded_100 | reflexivity | exact Hv | exact H47].
Qed.

(** C4 on both sides of the frontier: above 100 at [-50], at [-2^-46]
    and at the float just below [-2^-47]; equal to 100 at [-2^-47] and
    at [-2^-60]; and the sub-score of [-50] is the float [100 - (-50)]. *)
Lemma negative_aqi_score_witness :
  Float.gt (to_float (aqi_score (Float.of_int (-50)))) (Float.of_int 100) = true /\
  Float.gt (to_float (aqi_score minus_2_pow_m46)) (Float.of_int 100) = true /\
  Float.gt (to_float (aqi_score below_minus_2_pow_m47)) (Float.of_int 100) = true /\
  Float.eqb (to_float (aqi_score minus_2_pow_m47)) (Float.of_int 100) = true /\
  Float.eqb (to_float (aqi_score tiny_negative)) (Float.of_int 100) = true /\
  aqi_score (Float.of_int (-50))
    = NFloat (Float.sub (Float.of_int 100) (Float.of_int (-50))).
Proof.
  split; [|split; [|split; [|split; [|split]]]].
  - destruct (negative_aqi_score (Float.of_int (-50))) as (_ & _ & H & _);
      [vm_compute; reflexivity..|]. apply H. vm_compute. reflexivity.
  - destruct (negative_aqi_score minus_2_pow_m46) as (_ & _ & H & _);
      [vm_compute; reflexivity..|]. apply H. vm_compute. reflexivity.
  - destruct (negative_aqi_score below_minus_2_pow_m47) as (_ & _ & H & _);
      [vm_compute; reflexivity..|]. apply H. vm_compute. reflexivity.
  - destruct (negative_aqi_score minus_2_pow_m47) as (_ & _ & _ & H & _);
      [vm_compute; reflexivity..|]. apply H. vm_compute. reflexivity.
  - destruct (negative_aqi_score tiny_negative) as (_ & _ & _ & H & _);
      [vm_compute; reflexivity..|]. apply H. vm_compute. reflexivity.
  - destruct (negative_aqi_score (Float.of_int (-50))) as (H & _);
      [vm_compute; reflexivity..|]. exact H.
Defined.

(** * The explanation requester *)

Lemma prefix_append (p s : string) : String.prefix p (p +:+ s) = true.
Proof.
  induction p as [|c p IH]; simpl.
  - destruct s; reflexivity.
  - destruct (Ascii.ascii_dec c c) as [_|Hc]; [exact IH | contradiction].
Qed.

(** Whatever the [try] block does, a value comes back and one request
    was sent. *)
Lemma ask_with_key (str : float -> string) (w : world) (key : string)
    (lat lon solar aqi : float) (img : option string) :
  environ w !! "GEMINI_API_KEY" = Some key -> key <> EmptyString ->
  let rq := build_request str key lat lon solar aqi img in
  ask_gemini_analysis str w lat lon solar aqi img =
    (match try_block w rq with
     | inl v => v
     | inr e => PStr (failure_prefix +:+ e)
     end, [rq]).
Proof.
  intros Hk Hne rq. unfold ask_gemini_analysis. rewrite Hk.
  destruct key as [|c k]; [contradiction|].
  fold rq. destruct (try_block w rq); reflexivity.
Qed.

(** The exceptions of the [try] block, by origin. *)
Lemma try_block_transport (w : world) (rq : request) (e : exn) :
  network w rq = PostRaised e -> try_block w rq = inr e.
Proof. intros H. unfold try_block, client_post. rewrite H. reflexivity. Qed.

Lemma try_block_status (w : world) (rq : request) (r : response) :
  network w rq = PostResponse r ->
  (200 <=? status_code r) && (status_code r <=? 299) = false ->
  try_block w rq = inr (status_error r).
Proof.
  intros H Hs. unfold try_block, client_post, raise_for_status.
  rewrite H. simpl. rewrite Hs. reflexivity.
Qed.

Lemma try_block_bad_json (w : world) (rq : request) (r : response) (e : exn) :
  network w rq = PostResponse r ->
  (200 <=? status_code r) && (status_code r <=? 299) = true ->
  json_body r = inr e ->
  try_block w rq = inr e.
Proof.
  intros H Hs Hj. unfold try_block, client_post, raise_for_status.
  rewrite H. simpl. rewrite Hs. simpl. rewrite Hj. reflexivity.
Qed.

Lemma try_block_success (w : world) (rq : request) (r : response) (doc : pyval) :
  network w rq = PostResponse r ->
  (200 <=? status_code r) && (status_code r <=? 299) = true ->
  json_body r = inl doc ->
  try_block w rq = extract_text doc.
Proof.
  intros H Hs Hj. unfold try_block, client_post, raise_for_status.
  rewrite H. simpl. rewrite Hs. simpl. rewrite Hj. reflexivity.
Qed.

(** Absent keys fall back on the defaults of [get]. *)
Lemma extract_text_no_candidates (d : gmap string pyval) :
  d !! "candidates" = None ->
  extract_text (PDict d) = inl (PStr no_analysis_message).
Proof. intros H. unfold extract_text. simpl. rewrite H. reflexivity. Qed.

Lemma extract_text_no_content (d c : gmap string pyval) (rest : list pyval) :
  d !! "candidates" = Some (PList (PDict c :: rest)) ->
  c !! "content" = None ->
  extract_text (PDict d) = inl (PStr no_analysis_message).
Proof.
  intros H Hc. unfold extract_text. simpl. rewrite H. simpl. rewrite Hc.
  reflexivity.
Qed.

Lemma extract_text_no_parts (d c k : gmap string pyval) (rest : list pyval) :
  d !! "candidates" = Some (PList (PDict c :: rest)) ->
  c !! "content" = Some (PDict k) ->
  k !! "parts" = None ->
  extract_text (PDict d) = inl (PStr no_analysis_message).
Proof.
  intros H Hc Hk. unfold extract_text. simpl. rewrite H. simpl. rewrite Hc.
  simpl. rewrite Hk. reflexivity.
Qed.

Lemma extract_text_no_text (d c k p : gmap string pyval) (rest rest' : list pyval) :
  d !! "candidates" = Some (PList (PDict c :: rest)) ->
  c !! "content" = Some (PDict k) ->
  k !! "parts" = Some (PList (PDict p :: rest')) ->
  p !! "text" = None ->
  extract_text (PDict d) = inl (PStr no_analysis_message).
Proof.
  intros H Hc Hk Hp. unfold extract_text. simpl. rewrite H. simpl. rewrite Hc.
  simpl. rewrite Hk. simpl. rewrite Hp. reflexivity.
Qed.

(** An empty list at either index raises instead. *)
Lemma extract_text_empty_candidates (d : gmap string pyval) :
  d !! "candidates" = Some (PList []) ->
  extract_text (PDict d) = inr "list index out of range"%string.
Proof. intros H. unfold extract_text. simpl. rewrite H. reflexivity. Qed.

Lemma extract_text_empty_parts (d c k : gmap string pyval) (rest : list pyval) :
  d !! "candidates" = Some (PList (PDict c :: rest)) ->
  c !! "content" = Some (PDict k) ->
  k !! "parts" = Some (PList []) ->
  extract_text (PDict d) = inr "list index out of range"%string.
Proof.
  intros H Hc Hk. unfold extract_text. simpl. rewrite H. simpl. rewrite Hc.
  simpl. rewrite Hk. reflexivity.
Qed.

(** C3 (evaluation): a 2xx answer whose document is
    [{"candidates": []}] does not give the fallback text: indexing the
    empty list raises, and the handler reports a failure. *)
Theorem empty_candidates_give_failure_text (str : float -> string)
    (lat lon solar aqi : float) (img : option string) :
  fst (ask_gemini_analysis str
         (world_answering (PDict {[ "candidates" := PList [] ]}))
         lat lon solar aqi img)
  = PStr "Failed to get Gemini AI analysis: list index out of range".
Proof.
  rewrite (ask_with_key str _ "secret"); [|reflexivity|discriminate].
  cbn [fst].
  erewrite try_block_success; [|reflexivity..].
  rewrite extract_text_empty_candidates; reflexivity.
Qed.

(** C5: without a usable [GEMINI_API_KEY] (absent, or empty), the fixed
    message is returned and nothing is sent. *)
Theorem missing_key_message (str : float -> string) (w : world)
    (lat lon solar aqi : float) (img : option string) :
  truthy (environ w !! "GEMINI_API_KEY") = false ->
  ask_gemini_analysis str w lat lon solar aqi img
  = (PStr "GEMINI_API_KEY not set. Skipping AI analysis.", []).
Proof.
  intros H. unfold ask_gemini_analysis.
  destruct (environ w !! "GEMINI_API_KEY") as [[|c k]|]; try reflexivity.
  discriminate H.
Qed.

Lemma missing_key_message_witness :
  ask_gemini_analysis sample_str world_without_key
    (Float.of_int 10) (Float.of_int 20) two_and_a_half Float.nan (Some "aGk="%string)
  = (PStr "GEMINI_API_KEY not set. Skipping AI analysis.", []).
Proof. apply missing_key_message. reflexivity. Defined.

(** C6 (evaluation): a 2xx answer may carry a number where the text is
    expected; the requester then returns that number, which is not a
    string, whatever its arguments. *)
Theorem number_as_text_returned (str : float -> string)
    (lat lon solar aqi : float) (img : option string) :
  let doc := PDict {[ "candidates" :=
               PList [PDict {[ "content" :=
                 PDict {[ "parts" := PList [PDict {[ "text" := PInt 5 ]}] ]} ]}] ]} in
  fst (ask_gemini_analysis str (world_answering doc) lat lon solar aqi img) = PInt 5 /\
  is_str (fst (ask_gemini_analysis str (world_answering doc) lat lon solar aqi img))
  = false.
Proof.
  intros doc.
  assert (fst (ask_gemini_analysis str (world_answering doc) lat lon solar aqi img)
          = PInt 5) as H.
  { rewrite (ask_with_key str _ "secret"); [|reflexivity|discriminate].
    cbn [fst]. erewrite try_block_success; [|reflexivity..]. reflexivity. }
  rewrite H. split; reflexivity.
Qed.

(** X24: the requester always returns. Whenever the outbound
    call or the processing of its answer raises, the value is the
    failure prefix followed by the text of the exception; in every case
    the value is a string, save for a non-string value extracted from a
    2xx answer, which is returned unchanged. *)
Theorem ask_never_raises (str : float -> string) (w : world)
    (lat lon solar aqi : float) (img : option string) :
  let v := fst (ask_gemini_analysis str w lat lon solar aqi img) in
  (forall key e, environ w !! "GEMINI_API_KEY" = Some key -> key <> EmptyString ->
     try_block w (build_request str key lat lon solar aqi img) = inr e ->
     v = PStr (failure_prefix +:+ e) /\
     String.prefix "Failed to get Gemini AI analysis: " (failure_prefix +:+ e) = true) /\
  (is_str v = true \/
   exists key r doc,
     network w (build_request str key lat lon solar aqi img) = PostResponse r /\
     (200 <=? status_code r) && (status_code r <=? 299) = true /\
     json_body r = inl doc /\ extract_text doc = inl v).
Proof.
  intros v. split.
  - intros key e Hk Hne He. subst v.
    rewrite (ask_with_key str w key); auto. rewrite He. cbn [fst].
    split; [reflexivity | apply prefix_append].
  - subst v. unfold ask_gemini_analysis.
    destruct (environ w !! "GEMINI_API_KEY") as [[|c k]|] eqn:Hk;
      [left; reflexivity | | left; reflexivity].
    set (rq := build_request _ _ _ _ _ _ _).
    destruct (try_block w rq) as [v|e] eqn:Ht; [|left; reflexivity].
    cbn [fst]. destruct (is_str v) eqn:Hv; [left; reflexivity|right].
    unfold try_block, client_post in Ht.
    destruct (network w rq) as [e|r] eqn:Hn; [discriminate|].
    simpl in Ht. unfold raise_for_status in Ht.
    destruct ((200 <=? status_code r) && (status_code r <=? 299)) eqn:Hs;
      [|discriminate].
    simpl in Ht. destruct (json_body r) as [doc|e] eqn:Hj; [|discriminate].
    exists (String c k), r, doc. auto.
Qed.

(** X24 on a transport error. *)
Lemma ask_never_raises_witness :
  let w := {| environ := {[ "GEMINI_API_KEY" := "secret" ]};
              network := fun _ => PostRaised "timed out" |} in
  fst (ask_gemini_analysis sample_str w (Float.of_int 0) (Float.of_int 0)
         (Float.of_int 0) (Float.of_int 0) None)
  = PStr "Failed to get Gemini AI analysis: timed out".
Proof.
  intros w.
  destruct (ask_never_raises sample_str w (Float.of_int 0) (Float.of_int 0)
              (Float.of_int 0) (Float.of_int 0) None) as (H & _).
  destruct (H "secret"%string "timed out"%string) as (Hv & _).
  - reflexivity.
  - discriminate.
  - reflexivity.
  - exact Hv.
Defined.

(** * The endpoint *)

Lemma handler_sent (str : float -> string) (sc : pyval -> option string)
    (calc : float -> float -> string * Z) (w : world) (lat lon solar aqi : float) :
  snd (handler str sc calc w lat lon solar aqi)
  = snd (ask_gemini_analysis str w lat lon solar aqi None).
Proof.
  unfold handler. destruct (calc solar aqi) as [l y].
  destruct (ask_gemini_analysis str w lat lon solar aqi None). reflexivity.
Qed.

(** What the handler returns is the reply model built from the inputs,
    the result of the calculator and the value of the requester. *)
Lemma handler_result (str : float -> string) (sc : pyval -> option string)
    (calc : float -> float -> string * Z) (w : world) (lat lon solar aqi : float) :
  fst (handler str sc calc w lat lon solar aqi)
  = LivabilityResult_init sc lat lon solar aqi (calc solar aqi).1 (calc solar aqi).2
      (fst (ask_gemini_analysis str w lat lon solar aqi None)).
Proof.
  unfold handler. destruct (calc solar aqi) as [l y].
  destruct (ask_gemini_analysis str w lat lon solar aqi None). reflexivity.
Qed.

(** The reply model is built exactly when the analysis validates as a
    string, and then it carries the values given. *)
Lemma init_fields (sc : pyval -> option string) (lat lon solar aqi : float)
    (l : string) (y : Z) (v : pyval) (r : LivabilityResult) :
  LivabilityResult_init sc lat lon solar aqi l y v = inl r ->
  location_latitude r = lat /\ location_longitude r = lon /\
  solar_radiation_score r = solar /\ air_quality_index r = aqi /\
  calculated_livability_score r = l /\ estimated_habitable_years r = y /\
  validate_str sc v = inl (gemini_analysis r).
Proof.
  unfold LivabilityResult_init. destruct (validate_str sc v) as [s|e]; simpl.
  - intros [= <-]. simpl. auto 10.
  - discriminate.
Qed.

Lemma init_str (sc : pyval -> option string) (lat lon solar aqi : float)
    (l : string) (y : Z) (s : string) :
  exists r, LivabilityResult_init sc lat lon solar aqi l y (PStr s) = inl r /\
    gemini_analysis r = s.
Proof. eexists. split; reflexivity. Qed.

Lemma handler_fields (str : float -> string) (sc : pyval -> option string)
    (calc : float -> float -> string * Z) (w : world) (lat lon solar aqi : float)
    (r : LivabilityResult) :
  fst (handler str sc calc w lat lon solar aqi) = inl r ->
  location_latitude r = lat /\ location_longitude r = lon /\
  solar_radiation_score r = solar /\ air_quality_index r = aqi /\
  (calculated_livability_score r, estimated_habitable_years r) = calc solar aqi /\
  validate_str sc (fst (ask_gemini_analysis str w lat lon solar aqi None))
    = inl (gemini_analysis r).
Proof.
  rewrite handler_result. intros H.
  apply init_fields in H as (H1 & H2 & H3 & H4 & H5 & H6 & H7).
  rewrite H5, H6. destruct (calc solar aqi). auto 10.
Qed.

(** Once the parameters pass, the outcome is the one of the handler. *)
Lemma endpoint_accepts (str : float -> string) (sc : pyval -> option string)
    (w : world) (lat lon solar aqi : float) :
  in_range (-90) 90 lat = true -> in_range (-180) 180 lon = true ->
  endpoint str sc w {| q_lat := Some lat; q_lon := Some lon;
                       q_solar := Some solar; q_aqi := Some aqi |}
  = (match fst (get_livability_score str sc w lat lon solar aqi) with
     | inl m => Replied200 m
     | inr _ => Failed500
     end,
     snd (ask_gemini_analysis str w lat lon solar aqi None)).
Proof.
  intros Hlat Hlon. unfold endpoint, route. cbn [q_lat q_lon q_solar q_aqi].
  rewrite Hlat, Hlon. cbn [andb].
  pose proof (handler_sent str sc calculate_livability_score w lat lon solar aqi)
    as Hsent.
  fold (get_livability_score str sc) in Hsent.
  destruct (get_livability_score str sc w lat lon solar aqi) as [r sent].
  cbn [fst snd] in *. rewrite Hsent. reflexivity.
Qed.

(** The prompt travels as the text of the first part of the request. *)
Lemma request_prompt_build (str : float -> string) (key : string)
    (lat lon solar aqi : float) (img : option string) :
  request_prompt (build_request str key lat lon solar aqi img)
  = inl (PStr (prompt_text str lat lon solar aqi img)).
Proof.
  unfold request_prompt, build_request, payload. cbn [req_json]. simpl.
  rewrite lookup_singleton. simpl. rewrite lookup_singleton. simpl.
  rewrite lookup_singleton. reflexivity.
Qed.

(** C7: what is sent does not depend on the calculator: the requests of
    the handler are those of the requester called on the raw inputs,
    whatever function computes the label and the years; the prompt is
    built from the four numbers and from whether an image is present. *)
Theorem prompt_ignores_calculator (str : float -> string)
    (sc : pyval -> option string) (w : world)
    (lat lon solar aqi : float) (img : option string)
    (calc calc' : float -> float -> string * Z) :
  snd (handler str sc calc w lat lon solar aqi)
    = snd (handler str sc calc' w lat lon solar aqi) /\
  snd (get_livability_score str sc w lat lon solar aqi)
    = snd (ask_gemini_analysis str w lat lon solar aqi None) /\
  (forall rq, In rq (snd (get_livability_score str sc w lat lon solar aqi)) ->
     exists key, rq = build_request str key lat lon solar aqi None) /\
  prompt_text str lat lon solar aqi img
    = prompt_text str lat lon solar aqi (if truthy img then Some "1"%string else None).
Proof.
  split; [|split; [|split]].
  - rewrite !handler_sent. reflexivity.
  - apply handler_sent.
  - intros rq. unfold get_livability_score. rewrite handler_sent.
    unfold ask_gemini_analysis.
    destruct (environ w !! "GEMINI_API_KEY") as [[|c k]|]; simpl; try tauto.
    set (rq' := build_request _ _ _ _ _ _ _).
    destruct (try_block w rq'); simpl; intros [<-|[]]; exists (String c k); reflexivity.
  - unfold prompt_text. destruct (truthy img); reflexivity.
Qed.

Lemma outside_not_in_range (lo hi : Z) (x : float) :
  outside lo hi x = true -> in_range lo hi x = false.
Proof.
  unfold outside, in_range. intros H.
  apply orb_true_iff in H as [H|H].
  - rewrite (lt_not_ge _ _ H). reflexivity.
  - rewrite (gt_not_le _ _ H). apply andb_false_r.
Qed.

(** C8: a latitude outside [-90, 90] or a longitude outside [-180, 180]
    is rejected by the boundary layer, whatever the handler behind it:
    the handler is not called and nothing is sent. *)
Theorem out_of_range_rejected
    (h : world -> float -> float -> float -> float ->
         result LivabilityResult * list request)
    (w : world) (lat lon : float) (solar aqi : option float) :
  outside (-90) 90 lat || outside (-180) 180 lon = true ->
  route h w {| q_lat := Some lat; q_lon := Some lon; q_solar := solar; q_aqi := aqi |}
  = (Rejected422, []).
Proof.
  intros H. unfold route. cbn [q_lat q_lon q_solar q_aqi].
  destruct solar as [solar|], aqi as [aqi|]; try reflexivity.
  apply orb_true_iff in H as [H|H]; rewrite (outside_not_in_range _ _ _ H).
  - reflexivity.
  - rewrite andb_false_r. reflexivity.
Qed.

(** Latitude 91, and longitude 181, in front of the real handler. *)
Lemma out_of_range_rejected_witness :
  endpoint sample_str refuse_scalars (world_answering PNone)
    {| q_lat := Some (Float.of_int 91); q_lon := Some (Float.of_int 0);
       q_solar := Some (Float.of_int 3); q_aqi := Some (Float.of_int 50) |}
  = (Rejected422, []) /\
  endpoint sample_str refuse_scalars (world_answering PNone)
    {| q_lat := Some (Float.of_int 0); q_lon := Some (Float.of_int 181);
       q_solar := Some (Float.of_int 3); q_aqi := Some (Float.of_int 50) |}
  = (Rejected422, []).
Proof.
  split; apply (out_of_range_rejected (get_livability_score sample_str refuse_scalars));
    vm_compute; reflexivity.
Defined.

(** C9: no range is checked on [solar] and [aqi]: with a latitude and a
    longitude in range, any two floats pass the boundary layer and reach
    the handler. What is sent is what the requester sends on the raw
    values; with a key configured it is one request whose prompt spells
    out [solar] and [aqi] as they came. Whenever the handler returns its
    reply, the reply carries the two values unchanged together with the
    result of the calculator on them; it does so as soon as the analysis
    is a string. *)
Theorem solar_and_aqi_unchecked (str : float -> string) (sc : pyval -> option string)
    (w : world) (lat lon solar aqi : float) :
  in_range (-90) 90 lat = true -> in_range (-180) 180 lon = true ->
  let out := endpoint str sc w {| q_lat := Some lat; q_lon := Some lon;
                                  q_solar := Some solar; q_aqi := Some aqi |} in
  fst out <> Rejected422 /\
  snd out = snd (ask_gemini_analysis str w lat lon solar aqi None) /\
  (forall key, environ w !! "GEMINI_API_KEY" = Some key -> key <> EmptyString ->
     exists rq, snd out = [rq] /\
       request_prompt rq
       = inl (PStr ("Location: lat=" +:+ str lat +:+ ", lon=" +:+ str lon +:+ newline
                    +:+ "Solar radiation score: " +:+ str solar +:+ newline
                    +:+ "Air quality index: " +:+ str aqi +:+ newline
                    +:+ "Explain the livability of this location based on these scores, "
                    +:+ "and suggest interventions or improvements. "))) /\
  (forall r, fst out = Replied200 r ->
     solar_radiation_score r = solar /\ air_quality_index r = aqi /\
     (calculated_livability_score r, estimated_habitable_years r)
       = calculate_livability_score solar aqi) /\
  (forall s, fst (ask_gemini_analysis str w lat lon solar aqi None) = PStr s ->
     exists r, fst out = Replied200 r /\ gemini_analysis r = s /\
       solar_radiation_score r = solar /\ air_quality_index r = aqi /\
       (calculated_livability_score r, estimated_habitable_years r)
         = calculate_livability_score solar aqi).
Proof.
  intros Hlat Hlon out. subst out.
  rewrite (endpoint_accepts str sc w lat lon solar aqi Hlat Hlon). cbn [fst snd].
  pose proof (handler_fields str sc calculate_livability_score w lat lon solar aqi)
    as Hf.
  fold (get_livability_score str sc) in Hf.
  split; [|split; [|split; [|split]]].
  - destruct (fst (get_livability_score str sc w lat lon solar aqi)); discriminate.
  - reflexivity.
  - intros key Hk Hne. exists (build_request str key lat lon solar aqi None).
    split; [rewrite (ask_with_key str w key); auto|].
    rewrite request_prompt_build. reflexivity.
  - intros r Hr.
    destruct (fst (get_livability_score str sc w lat lon solar aqi)) as [m|e];
      [|discriminate].
    injection Hr as ->. destruct (Hf r eq_refl) as (_ & _ & Hs & Ha & Hc & _). auto.
  - intros s Hs. unfold get_livability_score in *. rewrite handler_result in *.
    rewrite Hs in *.
    destruct (init_str sc lat lon solar aqi
                (calculate_livability_score solar aqi).1
                (calculate_livability_score solar aqi).2 s) as (r & Hr & Hg).
    rewrite Hr in *. exists r.
    destruct (Hf r eq_refl) as (_ & _ & H3 & H4 & H5 & _). auto 10.
Qed.

(** Far outside the nominal ranges: the solar score -1000 and the index
    100000 pass, are answered, and are spelt out in the prompt. *)
Lemma solar_and_aqi_unchecked_witness :
  let out := endpoint sample_str refuse_scalars (world_answering sample_document)
      {| q_lat := Some (Float.of_int 45); q_lon := Some (Float.of_int (-120));
         q_solar := Some (Float.of_int (-1000)); q_aqi := Some (Float.of_int 100000) |} in
  (exists r, fst out = Replied200 r /\ gemini_analysis r = "Plant trees."%string /\
     solar_radiation_score r = Float.of_int (-1000) /\
     air_quality_index r = Float.of_int 100000 /\
     (calculated_livability_score r, estimated_habitable_years r)
       = calculate_livability_score (Float.of_int (-1000)) (Float.of_int 100000)) /\
  (exists rq, snd out = [rq] /\
     request_prompt rq
     = inl (PStr ("Location: lat=" +:+ sample_str (Float.of_int 45)
                  +:+ ", lon=" +:+ sample_str (Float.of_int (-120)) +:+ newline
                  +:+ "Solar radiation score: " +:+ sample_str (Float.of_int (-1000))
                  +:+ newline
                  +:+ "Air quality index: " +:+ sample_str (Float.of_int 100000)
                  +:+ newline
                  +:+ "Explain the livability of this location based on these scores, "
                  +:+ "and suggest interventions or improvements. "))).
Proof.
  intros out.
  destruct (solar_and_aqi_unchecked sample_str refuse_scalars
              (world_answering sample_document)
              (Float.of_int 45) (Float.of_int (-120)) (Float.of_int (-1000))
              (Float.of_int 100000))
    as (_ & _ & Hp & _ & Hr).
  - vm_compute. reflexivity.
  - vm_compute. reflexivity.
  - split.
    + apply (Hr "Plant trees."%string). vm_compute. reflexivity.
    + apply (Hp "secret"%string); [reflexivity | discriminate].
Defined.

(** * Further properties of the calculator *)

Lemma classify_years (c : float) :
  ((classify c).2 = 80 -> classify c = ("High"%string, 80)) /\
  ((classify c).2 = 20 -> classify c = ("Low"%string, 20)).
Proof.
  unfold classify. destruct (Float.ge c (Float.of_int 70)); [cbn; split; [auto|lia]|].
  destruct (Float.ge c (Float.of_int 40)); cbn; split; auto; lia.
Qed.

Lemma classify_years_range (c : float) : 20 <= (classify c).2 <= 80.
Proof.
  unfold classify. destruct (Float.ge c (Float.of_int 70)); [cbn; lia|].
  destruct (Float.ge c (Float.of_int 40)); cbn; lia.
Qed.

(** The combined score grows with [solar] and with the opposite of
    [aqi], jointly. *)
Lemma combined_dominance (s0 s a0 a : float) :
  Float.valid s0 = true -> Float.valid s = true -> SFleb s0 s = true ->
  Float.valid a = true -> Float.valid a0 = true -> SFleb a a0 = true ->
  SFleb (combined_score s0 a0) (combined_score s a) = true.
Proof.
  intros Hs0 Hs Hsle Ha Ha0 Hale. destruct (SFleb_nan _ _ Hsle) as (_ & Hn).
  rewrite !combined_score_spec.
  apply (SFleb_trans _ (spec_combined s a0)).
  - apply combined_mono_solar; assumption.
  - apply combined_anti_aqi; assumption.
Qed.

Lemma years_dominance (s0 s a0 a : float) :
  Float.valid s0 = true -> Float.valid s = true -> SFleb s0 s = true ->
  Float.valid a = true -> Float.valid a0 = true -> SFleb a a0 = true ->
  (calculate_livability_score s0 a0).2 <= (calculate_livability_score s a).2.
Proof.
  intros. unfold calculate_livability_score.
  apply classify_mono. apply combined_dominance; assumption.
Qed.

Lemma aqi_score_nan : aqi_score Float.nan = NInt 0.
Proof. reflexivity. Qed.

Lemma aqi_score_100 : aqi_score (Float.of_int 100) = NInt 0.
Proof. vm_compute. reflexivity. Qed.

Lemma combined_nan_aqi (solar : float) :
  combined_score solar Float.nan = combined_score solar (Float.of_int 100).
Proof. unfold combined_score. rewrite aqi_score_nan, aqi_score_100. reflexivity. Qed.

(** A float that is neither below nor above a positive finite float is
    that float. *)
Lemma SFleb_not_lt_eq (m : positive) (e : Z) (g : float) :
  SFleb (S754_finite false m e) g = true ->
  SFltb (S754_finite false m e) g = false ->
  g = S754_finite false m e.
Proof.
  unfold SFleb, SFltb.
  destruct g as [s|[|]| |[|] m' e']; cbn [SFcompare]; try discriminate.
  change (Pos.compare_cont Eq m m') with (m ?= m')%positive.
  destruct (Z.compare_spec e e'); try discriminate.
  destruct (Pos.compare_spec m m'); try discriminate.
  intros _ _. subst. reflexivity.
Qed.

Lemma years_5_pinf : (calculate_livability_score (Float.of_int 5) Float.pinf).2 = 50.
Proof. vm_compute. reflexivity. Qed.

Lemma years_pinf_100 : (calculate_livability_score Float.pinf (Float.of_int 100)).2 = 50.
Proof. vm_compute. reflexivity. Qed.

Lemma years_ninf_m40 : (calculate_livability_score Float.ninf (Float.of_int (-40))).2 = 80.
Proof. vm_compute. reflexivity. Qed.

Lemma years_5_0 : (calculate_livability_score (Float.of_int 5) (Float.of_int 0)).2 = 80.
Proof. vm_compute. reflexivity. Qed.

Lemma years_0_100 : (calculate_livability_score (Float.of_int 0) (Float.of_int 100)).2 = 20.
Proof. vm_compute. reflexivity. Qed.

(** X1: a NaN solar score gives Low and 20 years, whatever the index:
    the NaN goes through [max] and [min] and makes the combined score a
    NaN, on which both comparisons of the chain are false. *)
Theorem nan_solar_is_low (aqi : float) :
  Float.is_nan (combined_score Float.nan aqi) = true /\
  calculate_livability_score Float.nan aqi = ("Low"%string, 20).
Proof.
  unfold calculate_livability_score. rewrite combined_score_spec, combined_nan.
  split; reflexivity.
Qed.

(** X2: a NaN index is scored like the index 100: [max(0, nan)] keeps
    the integer 0, so the AQI sub-score is 0 and the combined score and
    the result are those of [(solar, 100)], for every solar score. *)
Theorem nan_aqi_scored_as_100 (solar : float) :
  aqi_score Float.nan = NInt 0 /\
  combined_score solar Float.nan = combined_score solar (Float.of_int 100) /\
  calculate_livability_score solar Float.nan
    = calculate_livability_score solar (Float.of_int 100).
Proof.
  split; [reflexivity|]. split; [apply combined_nan_aqi|].
  unfold calculate_livability_score. rewrite combined_nan_aqi. reflexivity.
Qed.

(** X3: the solar sub-score saturates: for every binary64 [solar >= 5]
    it is exactly 100, and for every [solar <= 0] it is zero. *)
Theorem solar_score_saturates (solar : float) :
  Float.valid solar = true ->
  (Float.ge solar (Float.of_int 5) = true ->
     to_float (solar_score solar) = Float.of_int 100) /\
  (Float.le solar (Float.of_int 0) = true ->
     Float.eqb (to_float (solar_score solar)) (Float.of_int 0) = true).
Proof.
  intros Hv. rewrite solar_score_clamp. unfold Float.ge, Float.le, Float.eqb. split.
  - intros H5. destruct (SFleb_nan _ _ H5) as (_ & Hn).
    pose proof (scaled_solar_mono (Float.of_int 5) solar eq_refl Hv H5) as Hm.
    unfold spec_solar_score, clamp, Float.lt, Float.gt.
    set (v := Float.mul (Float.div solar (Float.of_int 5)) (Float.of_int 100)) in *.
    assert (SFleb (Float.of_int 100) v = true) as H100.
    { refine (SFleb_trans _ _ _ _ Hm). vm_compute. reflexivity. }
    assert (SFltb v (Float.of_int 0) = false) as ->.
    { apply SFleb_not_gt. exact (SFleb_trans _ _ _ zero_le_100 H100). }
    destruct (SFltb (Float.of_int 100) v) eqn:Hgt; [reflexivity|].
    rewrite of_int_100 in H100, Hgt |- *. apply SFleb_not_lt_eq; assumption.
  - intros H0. destruct (SFleb_nan _ _ H0) as (Hn & _).
    pose proof (scaled_solar_mono solar (Float.of_int 0) Hv eq_refl H0) as Hm.
    destruct (scaled_solar_valid solar Hn) as (_ & Hnv).
    unfold spec_solar_score, clamp, Float.lt, Float.gt.
    set (v := Float.mul (Float.div solar (Float.of_int 5)) (Float.of_int 100)) in *.
    assert (SFleb v (Float.of_int 0) = true) as Hle0.
    { refine (SFleb_trans _ _ _ Hm _). vm_compute. reflexivity. }
    destruct (SFltb v (Float.of_int 0)) eqn:Hlt; [reflexivity|].
    assert (SFltb (Float.of_int 100) v = false) as ->.
    { apply SFleb_not_gt. exact (SFleb_trans _ _ _ Hle0 zero_le_100). }
    apply SFleb_antisym; [exact Hle0|].
    apply SFltb_false_le; [exact Hnv | reflexivity | exact Hlt].
Qed.

(** X3 at solar 7, at plus infinity, and at solar -3. *)
Lemma solar_score_saturates_witness :
  to_float (solar_score (Float.of_int 7)) = Float.of_int 100 /\
  to_float (solar_score Float.pinf) = Float.of_int 100 /\
  Float.eqb (to_float (solar_score (Float.of_int (-3)))) (Float.of_int 0) = true.
Proof.
  split; [|split].
  - apply (solar_score_saturates (Float.of_int 7)); vm_compute; reflexivity.
  - apply (solar_score_saturates Float.pinf); vm_compute; reflexivity.
  - apply (solar_score_saturates (Float.of_int (-3))); vm_compute; reflexivity.
Defined.

(** X4: from the index 100 on, the AQI sub-score is the integer 0 that
    [max] keeps: [100 - aqi] does not exceed it. *)
Theorem aqi_score_vanishes (aqi : float) :
  Float.valid aqi = true -> Float.ge aqi (Float.of_int 100) = true ->
  aqi_score aqi = NInt 0.
Proof.
  intros Hv Hge. unfold Float.ge in Hge.
  unfold aqi_score, py_max, num_gt, num_lt. cbn [to_float]. unfold Float.lt.
  assert (SFltb (Float.of_int 0) (Float.sub (Float.of_int 100) aqi) = false) as ->;
    [|reflexivity].
  apply SFleb_not_gt.
  apply (SFleb_trans _ (Float.sub (Float.of_int 100) (Float.of_int 100)));
    [|vm_compute; reflexivity].
  rewrite of_int_100 in Hge |- *.
  apply sub_anti; [exact bounded_100 | reflexivity | exact Hv | exact Hge].
Qed.

(** X4 at the index 500 and at plus infinity. *)
Lemma aqi_score_vanishes_witness :
  aqi_score (Float.of_int 500) = NInt 0 /\ aqi_score Float.pinf = NInt 0.
Proof.
  split.
  - apply (aqi_score_vanishes (Float.of_int 500)); vm_compute; reflexivity.
  - apply (aqi_score_vanishes Float.pinf); vm_compute; reflexivity.
Defined.

(** X5: on the nominal side of the index ([aqi >= 0]) the combined score
    stays between 0 and 100, for every solar score other than NaN. *)
Theorem combined_score_nominal_range (solar aqi : float) :
  Float.valid solar = true -> Float.is_nan solar = false ->
  Float.valid aqi = true -> Float.ge aqi (Float.of_int 0) = true ->
  Float.le (Float.of_int 0) (combined_score solar aqi) = true /\
  Float.le (combined_score solar aqi) (Float.of_int 100) = true.
Proof.
  intros Hs Hn Ha Hge. unfold Float.ge in Hge. unfold Float.le.
  destruct (SFleb_nan _ _ Hge) as (_ & Hna). split.
  - apply (SFleb_trans _ (combined_score Float.ninf Float.pinf));
      [vm_compute; reflexivity|].
    apply combined_dominance; try assumption; try reflexivity;
      [apply ninf_le | apply le_pinf]; assumption.
  - apply (SFleb_trans _ (combined_score Float.pinf (Float.of_int 0)));
      [|vm_compute; reflexivity].
    apply combined_dominance; try assumption; try reflexivity.
    apply le_pinf; assumption.
Qed.

(** X5 at solar 2.5 and index 30. *)
Lemma combined_score_nominal_range_witness :
  Float.le (Float.of_int 0) (combined_score two_and_a_half (Float.of_int 30)) = true /\
  Float.le (combined_score two_and_a_half (Float.of_int 30)) (Float.of_int 100) = true.
Proof.
  apply (combined_score_nominal_range two_and_a_half (Float.of_int 30));
    vm_compute; reflexivity.
Defined.

(** X6: an index of -40 or less forces the result High with 80 years,
    whatever the solar score other than NaN: the sub-score of the index
    alone reaches 140, half of which is 70. *)
Theorem very_negative_aqi_is_high (solar aqi : float) :
  Float.valid solar = true -> Float.is_nan solar = false ->
  Float.valid aqi = true -> Float.le aqi (Float.of_int (-40)) = true ->
  calculate_livability_score solar aqi = ("High"%string, 80).
Proof.
  intros Hs Hn Ha Hle. unfold Float.le in Hle.
  apply classify_years.
  pose proof (years_dominance Float.ninf solar (Float.of_int (-40)) aqi
                eq_refl Hs (ninf_le _ Hn) Ha eq_refl Hle) as H.
  rewrite years_ninf_m40 in H.
  pose proof (classify_years_range (combined_score solar aqi)).
  unfold calculate_livability_score in H. lia.
Qed.

(** X6 at solar 0 and index -100. *)
Lemma very_negative_aqi_is_high_witness :
  calculate_livability_score (Float.of_int 0) (Float.of_int (-100)) = ("High"%string, 80).
Proof.
  apply (very_negative_aqi_is_high (Float.of_int 0) (Float.of_int (-100)));
    vm_compute; reflexivity.
Defined.

(** X7: a solar score of 5 or more is never Low: the result has at least
    50 years for every index, infinite or NaN included. *)
Theorem high_solar_never_low (solar aqi : float) :
  Float.valid solar = true -> Float.valid aqi = true ->
  Float.ge solar (Float.of_int 5) = true ->
  50 <= (calculate_livability_score solar aqi).2.
Proof.
  intros Hs Ha Hge. unfold Float.ge in Hge.
  assert (forall a, Float.valid a = true -> Float.is_nan a = false ->
            50 <= (calculate_livability_score solar a).2) as Hmain.
  { intros a Hva Hna.
    pose proof (years_dominance (Float.of_int 5) solar Float.pinf a
                  eq_refl Hs Hge Hva eq_refl (le_pinf _ Hna)) as H.
    rewrite years_5_pinf in H. exact H. }
  destruct (Float.is_nan aqi) eqn:Hn.
  - destruct aqi; try discriminate Hn.
    unfold calculate_livability_score.
    change S754_nan with Float.nan. rewrite combined_nan_aqi.
    apply (Hmain (Float.of_int 100)); reflexivity.
  - apply Hmain; assumption.
Qed.

(** X7 at solar 5 with the indices 500 and NaN. *)
Lemma high_solar_never_low_witness :
  50 <= (calculate_livability_score (Float.of_int 5) (Float.of_int 500)).2 /\
  50 <= (calculate_livability_score (Float.of_int 5) Float.nan).2.
Proof.
  split.
  - apply (high_solar_never_low (Float.of_int 5) (Float.of_int 500));
      vm_compute; reflexivity.
  - apply (high_solar_never_low (Float.of_int 5) Float.nan); vm_compute; reflexivity.
Defined.

(** X8: an index of 100 or more is never High: the result has at most
    50 years for every solar score, infinite or NaN included. *)
Theorem high_aqi_never_high (solar aqi : float) :
  Float.valid solar = true -> Float.valid aqi = true ->
  Float.ge aqi (Float.of_int 100) = true ->
  (calculate_livability_score solar aqi).2 <= 50.
Proof.
  intros Hs Ha Hge. unfold Float.ge in Hge.
  destruct (Float.is_nan solar) eqn:Hn.
  - destruct solar; try discriminate Hn.
    unfold calculate_livability_score.
    rewrite combined_score_spec. change S754_nan with Float.nan.
    rewrite combined_nan. apply Z.leb_le. reflexivity.
  - pose proof (years_dominance solar Float.pinf aqi (Float.of_int 100)
                  Hs eq_refl (le_pinf _ Hn) eq_refl Ha Hge) as H.
    rewrite years_pinf_100 in H. exact H.
Qed.

(** X8 at index 100 with the solar scores 5 and 1000. *)
Lemma high_aqi_never_high_witness :
  (calculate_livability_score (Float.of_int 5) (Float.of_int 100)).2 <= 50 /\
  (calculate_livability_score (Float.of_int 1000) (Float.of_int 100)).2 <= 50.
Proof.
  split.
  - apply (high_aqi_never_high (Float.of_int 5) (Float.of_int 100));
      vm_compute; reflexivity.
  - apply (high_aqi_never_high (Float.of_int 1000) (Float.of_int 100));
      vm_compute; reflexivity.
Defined.

(** X9: the two corners. A solar score of 5 or more with an index of 0
    or less is High with 80 years; a solar score of 0 or less with an
    index of 100 or more is Low with 20 years. *)
Theorem best_and_worst_corners (solar aqi : float) :
  Float.valid solar = true -> Float.valid aqi = true ->
  (Float.ge solar (Float.of_int 5) = true -> Float.le aqi (Float.of_int 0) = true ->
     calculate_livability_score solar aqi = ("High"%string, 80)) /\
  (Float.le solar (Float.of_int 0) = true -> Float.ge aqi (Float.of_int 100) = true ->
     calculate_livability_score solar aqi = ("Low"%string, 20)).
Proof.
  intros Hs Ha. unfold Float.ge, Float.le.
  pose proof (classify_years_range (combined_score solar aqi)) as Hr.
  split; intros H1 H2; apply classify_years.
  - pose proof (years_dominance (Float.of_int 5) solar (Float.of_int 0) aqi
                  eq_refl Hs H1 Ha eq_refl H2) as H.
    rewrite years_5_0 in H. unfold calculate_livability_score in H. lia.
  - pose proof (years_dominance solar (Float.of_int 0) aqi (Float.of_int 100)
                  Hs eq_refl H1 eq_refl Ha H2) as H.
    rewrite years_0_100 in H. unfold calculate_livability_score in H. lia.
Qed.

(** X9 at [(6, -1)] and at [(-1, 101)]. *)
Lemma best_and_worst_corners_witness :
  calculate_livability_score (Float.of_int 6) (Float.of_int (-1)) = ("High"%string, 80) /\
  calculate_livability_score (Float.of_int (-1)) (Float.of_int 101) = ("Low"%string, 20).
Proof.
  split.
  - apply (best_and_worst_corners (Float.of_int 6) (Float.of_int (-1)));
      vm_compute; reflexivity.
  - apply (best_and_worst_corners (Float.of_int (-1)) (Float.of_int 101));
      vm_compute; reflexivity.
Defined.

(** * Further properties of the explanation requester *)

Lemma try_block_answers (w : world) (rq : request) (doc : pyval) :
  answers w rq doc -> try_block w rq = extract_text doc.
Proof. intros (r & Hn & Hs & Hj). exact (try_block_success w rq r doc Hn Hs Hj). Qed.

(** With a key and a 2xx answer that decodes, the value is what the
    extraction gives, or the failure text of what it raises. *)
Lemma ask_answered (str : float -> string) (w : world) (key : string)
    (lat lon solar aqi : float) (img : option string) (doc : pyval) :
  environ w !! "GEMINI_API_KEY" = Some key -> key <> EmptyString ->
  answers w (build_request str key lat lon solar aqi img) doc ->
  fst (ask_gemini_analysis str w lat lon solar aqi img) =
    match extract_text doc with
    | inl v => v
    | inr e => PStr (failure_prefix +:+ e)
    end.
Proof.
  intros Hk Hne Ha. rewrite (ask_with_key str w key); auto.
  rewrite (try_block_answers _ _ _ Ha). reflexivity.
Qed.

Lemma extract_text_found (d c k p : gmap string pyval) (rest rest' : list pyval)
    (v : pyval) :
  d !! "candidates" = Some (PList (PDict c :: rest)) ->
  c !! "content" = Some (PDict k) ->
  k !! "parts" = Some (PList (PDict p :: rest')) ->
  p !! "text" = Some v ->
  extract_text (PDict d) = inl v.
Proof.
  intros H Hc Hk Hp. unfold extract_text. simpl. rewrite H. simpl. rewrite Hc.
  simpl. rewrite Hk. simpl. rewrite Hp. reflexivity.
Qed.

Lemma extract_text_not_dict (doc : pyval) :
  (forall d, doc <> PDict d) ->
  extract_text doc = inr ("'" +:+ type_name doc +:+ "' object has no attribute 'get'").
Proof. intros H. destruct doc; try reflexivity. destruct (H d eq_refl). Qed.

(** X10: with a key configured, exactly one POST is made, whatever the
    network answers: it goes to the fixed URL with the key in the query
    string, declares a JSON body, carries the prompt, and is given 30
    seconds; no second request follows a failure. *)
Theorem ask_sends_one_request (str : float -> string) (w : world) (key : string)
    (lat lon solar aqi : float) (img : option string) :
  environ w !! "GEMINI_API_KEY" = Some key -> key <> EmptyString ->
  exists rq : request,
    snd (ask_gemini_analysis str w lat lon solar aqi img) = [rq] /\
    req_url rq = gemini_url +:+ "?key=" +:+ key /\
    req_headers rq = ({[ "Content-Type" := "application/json" ]} : gmap string string) /\
    req_timeout rq = Float.of_int 30 /\
    req_json rq = payload (prompt_text str lat lon solar aqi img) img /\
    forall w' : world, environ w' = environ w ->
      snd (ask_gemini_analysis str w' lat lon solar aqi img) = [rq].
Proof.
  intros Hk Hne. exists (build_request str key lat lon solar aqi img).
  split; [rewrite (ask_with_key str w key); auto|].
  repeat split. intros w' Hw.
  rewrite (ask_with_key str w' key); auto. rewrite Hw. exact Hk.
Qed.

(** X10 on a network that times out. *)
Lemma ask_sends_one_request_witness :
  let w := {| environ := {[ "GEMINI_API_KEY" := "secret" ]};
              network := fun _ => PostRaised "timed out" |} in
  exists rq : request,
    snd (ask_gemini_analysis sample_str w (Float.of_int 1) (Float.of_int 2)
           (Float.of_int 3) (Float.of_int 4) None) = [rq] /\
    req_url rq = gemini_url +:+ "?key=secret".
Proof.
  intros w.
  destruct (ask_sends_one_request sample_str w "secret" (Float.of_int 1) (Float.of_int 2)
              (Float.of_int 3) (Float.of_int 4) None) as (rq & H1 & H2 & _).
  - reflexivity.
  - discriminate.
  - exists rq. split; [exact H1 | exact H2].
Defined.

(** X11: when the answer is a 2xx whose document holds
    [candidates[0].content.parts[0].text], that value is returned as it
    is; further candidates, further parts and other keys are ignored. *)
Theorem answer_text_returned (str : float -> string) (w : world) (key : string)
    (lat lon solar aqi : float) (img : option string)
    (d c k p : gmap string pyval) (rest rest' : list pyval) (v : pyval) :
  environ w !! "GEMINI_API_KEY" = Some key -> key <> EmptyString ->
  answers w (build_request str key lat lon solar aqi img) (PDict d) ->
  d !! "candidates" = Some (PList (PDict c :: rest)) ->
  c !! "content" = Some (PDict k) ->
  k !! "parts" = Some (PList (PDict p :: rest')) ->
  p !! "text" = Some v ->
  fst (ask_gemini_analysis str w lat lon solar aqi img) = v.
Proof.
  intros Hk Hne Ha H1 H2 H3 H4.
  rewrite (ask_answered str w key _ _ _ _ _ _ Hk Hne Ha).
  rewrite (extract_text_found d c k p rest rest' v H1 H2 H3 H4). reflexivity.
Qed.

(** X11 on a document with two candidates, the first of two parts. *)
Lemma answer_text_returned_witness :
  let p := {[ "text" := PStr "Plant trees." ]} : gmap string pyval in
  let k := {[ "parts" := PList [PDict p; PDict {[ "text" := PStr "second part" ]}] ]}
             : gmap string pyval in
  let c := {[ "content" := PDict k ]} : gmap string pyval in
  let d := {[ "candidates" := PList [PDict c; PDict ∅] ]} : gmap string pyval in
  fst (ask_gemini_analysis sample_str (world_answering (PDict d))
         (Float.of_int 1) (Float.of_int 2) (Float.of_int 3) (Float.of_int 4) None)
  = PStr "Plant trees.".
Proof.
  intros p k c d.
  apply (answer_text_returned sample_str (world_answering (PDict d)) "secret"
           (Float.of_int 1) (Float.of_int 2) (Float.of_int 3) (Float.of_int 4) None
           d c k p [PDict ∅] [PDict {[ "text" := PStr "second part" ]}]).
  - reflexivity.
  - discriminate.
  - eexists. split; [reflexivity|]. split; reflexivity.
  - reflexivity.
  - reflexivity.
  - reflexivity.
  - reflexivity.
Defined.

(** X12: when a key of the path is absent from its object (the
    candidates, the content of the first candidate, its parts, or the
    text of the first part), the value is the fallback text. *)
Theorem absent_key_gives_fallback (str : float -> string) (w : world) (key : string)
    (lat lon solar aqi : float) (img : option string) (d : gmap string pyval) :
  environ w !! "GEMINI_API_KEY" = Some key -> key <> EmptyString ->
  answers w (build_request str key lat lon solar aqi img) (PDict d) ->
  (d !! "candidates" = None \/
   exists c rest, d !! "candidates" = Some (PList (PDict c :: rest)) /\
     (c !! "content" = None \/
      exists k, c !! "content" = Some (PDict k) /\
        (k !! "parts" = None \/
         exists p rest', k !! "parts" = Some (PList (PDict p :: rest')) /\
           p !! "text" = None))) ->
  fst (ask_gemini_analysis str w lat lon solar aqi img) = PStr "No AI analysis returned.".
Proof.
  intros Hk Hne Ha H.
  rewrite (ask_answered str w key _ _ _ _ _ _ Hk Hne Ha).
  destruct H as [H|(c & rest & H & [Hc|(k & Hc & [Hp|(p & rest' & Hp & Ht)])])].
  - rewrite (extract_text_no_candidates d H). reflexivity.
  - rewrite (extract_text_no_content d c rest H Hc). reflexivity.
  - rewrite (extract_text_no_parts d c k rest H Hc Hp). reflexivity.
  - rewrite (extract_text_no_text d c k p rest rest' H Hc Hp Ht). reflexivity.
Qed.

(** X12 on the empty document, and on a first part without text. *)
Lemma absent_key_gives_fallback_witness :
  fst (ask_gemini_analysis sample_str (world_answering (PDict ∅))
         (Float.of_int 1) (Float.of_int 2) (Float.of_int 3) (Float.of_int 4) None)
  = PStr "No AI analysis returned." /\
  fst (ask_gemini_analysis sample_str
         (world_answering (PDict {[ "candidates" := PList [PDict {[ "content" :=
            PDict {[ "parts" := PList [PDict {[ "role" := PStr "model" ]}] ]} ]}] ]}))
         (Float.of_int 1) (Float.of_int 2) (Float.of_int 3) (Float.of_int 4) None)
  = PStr "No AI analysis returned.".
Proof.
  split.
  - apply (absent_key_gives_fallback sample_str (world_answering (PDict ∅)) "secret"
             (Float.of_int 1) (Float.of_int 2) (Float.of_int 3) (Float.of_int 4) None ∅).
    + reflexivity.
    + discriminate.
    + eexists. split; [reflexivity|]. split; reflexivity.
    + left. reflexivity.
  - eapply (absent_key_gives_fallback sample_str _ "secret").
    + reflexivity.
    + discriminate.
    + eexists. split; [reflexivity|]. split; reflexivity.
    + right. eexists. eexists. split; [reflexivity|].
      right. eexists. split; [reflexivity|].
      right. eexists. eexists. split; reflexivity.
Defined.

(** X13: the detail of the failure text, by origin. A transport error
    gives its own message; a status outside 200..299 gives the message
    of [raise_for_status], and the body is not looked at; a 2xx body
    that does not decode gives the message of the decoder. *)
Theorem failure_detail_by_origin (str : float -> string) (w : world) (key : string)
    (lat lon solar aqi : float) (img : option string) :
  environ w !! "GEMINI_API_KEY" = Some key -> key <> EmptyString ->
  let rq := build_request str key lat lon solar aqi img in
  let v := fst (ask_gemini_analysis str w lat lon solar aqi img) in
  (forall e, network w rq = PostRaised e -> v = PStr (failure_prefix +:+ e)) /\
  (forall r, network w rq = PostResponse r ->
     status_code r < 200 \/ 299 < status_code r ->
     v = PStr (failure_prefix +:+ status_error r)) /\
  (forall r e, network w rq = PostResponse r ->
     200 <= status_code r <= 299 -> json_body r = inr e ->
     v = PStr (failure_prefix +:+ e)).
Proof.
  intros Hk Hne rq v. subst v. rewrite (ask_with_key str w key); auto.
  fold rq. cbn [fst]. split; [|split].
  - intros e H. rewrite (try_block_transport w rq e H). reflexivity.
  - intros r H Hs. rewrite (try_block_status w rq r H); [reflexivity|].
    apply andb_false_iff. rewrite Z.leb_gt, Z.leb_gt. lia.
  - intros r e H Hs Hj. rewrite (try_block_bad_json w rq r e H); auto.
    apply andb_true_iff. rewrite !Z.leb_le. lia.
Qed.

(** X13 on a 503 answer whose body would be a complete document. *)
Lemma failure_detail_by_origin_witness :
  let doc := PDict {[ "candidates" :=
               PList [PDict {[ "content" :=
                 PDict {[ "parts" := PList [PDict {[ "text" := PStr "fine" ]}] ]} ]}] ]} in
  let w := {| environ := {[ "GEMINI_API_KEY" := "secret" ]};
              network := fun _ =>
                PostResponse {| status_code := 503;
                                status_error := "Server error '503 Service Unavailable'";
                                json_body := inl doc |} |} in
  fst (ask_gemini_analysis sample_str w (Float.of_int 1) (Float.of_int 2)
         (Float.of_int 3) (Float.of_int 4) None)
  = PStr "Failed to get Gemini AI analysis: Server error '503 Service Unavailable'".
Proof.
  intros doc w.
  destruct (failure_detail_by_origin sample_str w "secret" (Float.of_int 1)
              (Float.of_int 2) (Float.of_int 3) (Float.of_int 4) None)
    as (_ & H & _).
  - reflexivity.
  - discriminate.
  - apply (H {| status_code := 503;
                status_error := "Server error '503 Service Unavailable'";
                json_body := inl doc |}).
    + reflexivity.
    + right. reflexivity.
Defined.

(** X14: an empty image string counts as no image: the request and the
    result are those of a call without image. With a non-empty image the
    prompt is the one without image followed by one more sentence. In
    every case the first part of the first content of the payload
    carries the prompt as its text. *)
Theorem empty_image_is_no_image (str : float -> string) (w : world)
    (lat lon solar aqi : float) (c : Ascii.ascii) (s : string)
    (prompt : string) (img : option string) :
  ask_gemini_analysis str w lat lon solar aqi (Some EmptyString)
    = ask_gemini_analysis str w lat lon solar aqi None /\
  prompt_text str lat lon solar aqi (Some (String c s))
    = prompt_text str lat lon solar aqi None
      +:+ "Analyze this image together with the scores." +:+ newline /\
  (contents <~ py_get (payload prompt img) "contents" PNone ;
   content <~ py_item0 contents ;
   parts <~ py_get content "parts" PNone ;
   part <~ py_item0 parts ;
   py_get part "text" PNone) = inl (PStr prompt).
Proof.
  split; [reflexivity|]. split; [reflexivity|].
  unfold payload. simpl. rewrite lookup_singleton. simpl.
  rewrite lookup_singleton. simpl. rewrite lookup_singleton. reflexivity.
Qed.

(** X15: a 2xx answer whose document is not an object (a list, a string,
    a number, [null]) gives the failure text of the missing method
    [get], with the name of the type found. *)
Theorem non_object_document (str : float -> string) (w : world) (key : string)
    (lat lon solar aqi : float) (img : option string) (doc : pyval) :
  environ w !! "GEMINI_API_KEY" = Some key -> key <> EmptyString ->
  answers w (build_request str key lat lon solar aqi img) doc ->
  (forall d, doc <> PDict d) ->
  fst (ask_gemini_analysis str w lat lon solar aqi img)
  = PStr ("Failed to get Gemini AI analysis: '" +:+ type_name doc
          +:+ "' object has no attribute 'get'").
Proof.
  intros Hk Hne Ha Hd.
  rewrite (ask_answered str w key _ _ _ _ _ _ Hk Hne Ha).
  rewrite (extract_text_not_dict doc Hd). reflexivity.
Qed.

(** X15 on the document [[]]. *)
Lemma non_object_document_witness :
  fst (ask_gemini_analysis sample_str (world_answering (PList []))
         (Float.of_int 1) (Float.of_int 2) (Float.of_int 3) (Float.of_int 4) None)
  = PStr "Failed to get Gemini AI analysis: 'list' object has no attribute 'get'".
Proof.
  apply (non_object_document sample_str (world_answering (PList [])) "secret"
           (Float.of_int 1) (Float.of_int 2) (Float.of_int 3) (Float.of_int 4) None
           (PList [])).
  - reflexivity.
  - discriminate.
  - eexists. split; [reflexivity|]. split; reflexivity.
  - intros d. discriminate.
Defined.

(** X16: a key that is present with the value [null] is not replaced by
    the default of [get]: a null list of candidates or of parts fails at
    the index, a null content fails at the next [get], and a null text
    is returned as [None]. *)
Theorem explicit_null_not_defaulted (str : float -> string) (w : world) (key : string)
    (lat lon solar aqi : float) (img : option string) (d : gmap string pyval) :
  environ w !! "GEMINI_API_KEY" = Some key -> key <> EmptyString ->
  answers w (build_request str key lat lon solar aqi img) (PDict d) ->
  let v := fst (ask_gemini_analysis str w lat lon solar aqi img) in
  (d !! "candidates" = Some PNone ->
     v = PStr "Failed to get Gemini AI analysis: 'NoneType' object is not subscriptable") /\
  (forall c rest, d !! "candidates" = Some (PList (PDict c :: rest)) ->
     (c !! "content" = Some PNone ->
        v = PStr "Failed to get Gemini AI analysis: 'NoneType' object has no attribute 'get'") /\
     (forall k, c !! "content" = Some (PDict k) ->
        (k !! "parts" = Some PNone ->
           v = PStr "Failed to get Gemini AI analysis: 'NoneType' object is not subscriptable") /\
        (forall p rest', k !! "parts" = Some (PList (PDict p :: rest')) ->
           p !! "text" = Some PNone -> v = PNone))).
Proof.
  intros Hk Hne Ha v. subst v.
  rewrite (ask_answered str w key _ _ _ _ _ _ Hk Hne Ha).
  unfold extract_text. simpl. split.
  - intros ->. reflexivity.
  - intros c rest ->. simpl. split.
    + intros ->. reflexivity.
    + intros k ->. simpl. split.
      * intros ->. reflexivity.
      * intros p rest' ->. simpl. intros ->. reflexivity.
Qed.

(** X16 on the document [{"candidates": null}]. *)
Lemma explicit_null_not_defaulted_witness :
  fst (ask_gemini_analysis sample_str
         (world_answering (PDict {[ "candidates" := PNone ]}))
         (Float.of_int 1) (Float.of_int 2) (Float.of_int 3) (Float.of_int 4) None)
  = PStr "Failed to get Gemini AI analysis: 'NoneType' object is not subscriptable".
Proof.
  destruct (explicit_null_not_defaulted sample_str
              (world_answering (PDict {[ "candidates" := PNone ]})) "secret"
              (Float.of_int 1) (Float.of_int 2) (Float.of_int 3) (Float.of_int 4) None
              {[ "candidates" := PNone ]}) as (H & _).
  - reflexivity.
  - discriminate.
  - eexists. split; [reflexivity|]. split; reflexivity.
  - apply H. reflexivity.
Defined.

(** X17: an empty list at either index is not covered by the defaults:
    with an empty list of candidates, or an empty list of parts in the
    first candidate, the value is the failure text of the index error,
    on every network that answers so. *)
Theorem empty_list_gives_failure (str : float -> string) (w : world) (key : string)
    (lat lon solar aqi : float) (img : option string) (d : gmap string pyval) :
  environ w !! "GEMINI_API_KEY" = Some key -> key <> EmptyString ->
  answers w (build_request str key lat lon solar aqi img) (PDict d) ->
  (d !! "candidates" = Some (PList []) \/
   exists c k rest, d !! "candidates" = Some (PList (PDict c :: rest)) /\
     c !! "content" = Some (PDict k) /\ k !! "parts" = Some (PList [])) ->
  fst (ask_gemini_analysis str w lat lon solar aqi img)
  = PStr "Failed to get Gemini AI analysis: list index out of range".
Proof.
  intros Hk Hne Ha H.
  rewrite (ask_answered str w key _ _ _ _ _ _ Hk Hne Ha).
  destruct H as [H|(c & k & rest & H & Hc & Hp)].
  - rewrite (extract_text_empty_candidates d H). reflexivity.
  - rewrite (extract_text_empty_parts d c k rest H Hc Hp). reflexivity.
Qed.

(** X17 on a first candidate whose list of parts is empty. *)
Lemma empty_list_gives_failure_witness :
  fst (ask_gemini_analysis sample_str
         (world_answering (PDict {[ "candidates" := PList [PDict {[ "content" :=
            PDict {[ "parts" := PList [] ]} ]}] ]}))
         (Float.of_int 1) (Float.of_int 2) (Float.of_int 3) (Float.of_int 4) None)
  = PStr "Failed to get Gemini AI analysis: list index out of range".
Proof.
  eapply (empty_list_gives_failure sample_str _ "secret").
  - reflexivity.
  - discriminate.
  - eexists. split; [reflexivity|]. split; reflexivity.
  - right. eexists. eexists. eexists. split; [reflexivity|]. split; reflexivity.
Defined.

(** * Further properties of the endpoint *)

(** On numbers, a constraint passes as soon as the value is not
    outside. *)
Lemma not_outside_in_range (lo hi : Z) (x : float) :
  Float.is_nan (Float.of_int lo) = false -> Float.is_nan (Float.of_int hi) = false ->
  Float.is_nan x = false ->
  outside lo hi x = false -> in_range lo hi x = true.
Proof.
  unfold outside, in_range, Float.lt, Float.gt, Float.ge, Float.le.
  intros Hlo Hhi Hx H. apply orb_false_iff in H as (H1 & H2).
  rewrite (SFltb_false_le _ _ Hx Hlo H1), (SFltb_false_le _ _ Hhi Hx H2). reflexivity.
Qed.

Lemma ask_sent_length (str : float -> string) (w : world)
    (lat lon solar aqi : float) (img : option string) :
  length (snd (ask_gemini_analysis str w lat lon solar aqi img))
  = if truthy (environ w !! "GEMINI_API_KEY") then 1%nat else 0%nat.
Proof.
  unfold ask_gemini_analysis.
  destruct (environ w !! "GEMINI_API_KEY") as [[|c k]|]; try reflexivity.
  cbn [truthy]. destruct (try_block w _); reflexivity.
Qed.

Lemma ask_without_usable_key (str : float -> string) (w : world)
    (lat lon solar aqi : float) (img : option string) :
  truthy (environ w !! "GEMINI_API_KEY") = false ->
  ask_gemini_analysis str w lat lon solar aqi img = (PStr no_key_message, []).
Proof.
  intros Hk. unfold ask_gemini_analysis.
  destruct (environ w !! "GEMINI_API_KEY") as [[|c k]|]; try reflexivity.
  discriminate Hk.
Qed.

(** X19: on numbers the two constraints are exact: with the four
    parameters present and a latitude and a longitude other than NaN,
    the request is rejected if and only if the latitude is outside
    [-90, 90] or the longitude outside [-180, 180]; the bounds
    themselves pass. *)
Theorem numeric_rejection_iff_outside
    (h : world -> float -> float -> float -> float ->
         result LivabilityResult * list request)
    (w : world) (lat lon solar aqi : float) :
  Float.is_nan lat = false -> Float.is_nan lon = false ->
  (fst (route h w {| q_lat := Some lat; q_lon := Some lon;
                     q_solar := Some solar; q_aqi := Some aqi |}) = Rejected422
   <-> outside (-90) 90 lat || outside (-180) 180 lon = true).
Proof.
  intros Hlat Hlon. unfold route. cbn [q_lat q_lon q_solar q_aqi].
  destruct (outside (-90) 90 lat) eqn:H1.
  - rewrite (outside_not_in_range _ _ _ H1). cbn. tauto.
  - rewrite (not_outside_in_range (-90) 90 lat eq_refl eq_refl Hlat H1).
    destruct (outside (-180) 180 lon) eqn:H2.
    + rewrite (outside_not_in_range _ _ _ H2). cbn. tauto.
    + rewrite (not_outside_in_range (-180) 180 lon eq_refl eq_refl Hlon H2).
      cbn [andb orb].
      destruct (h w lat lon solar aqi) as [[m|e] sent]; cbn [fst];
        split; discriminate.
Qed.

(** X19 on the bounds: latitude 90 with longitude -180 is not
    rejected. *)
Lemma numeric_rejection_iff_outside_witness :
  fst (endpoint sample_str refuse_scalars world_without_key
         {| q_lat := Some (Float.of_int 90); q_lon := Some (Float.of_int (-180));
            q_solar := Some (Float.of_int 3); q_aqi := Some (Float.of_int 50) |})
  <> Rejected422.
Proof.
  intros H.
  apply (numeric_rejection_iff_outside (get_livability_score sample_str refuse_scalars)
           world_without_key (Float.of_int 90) (Float.of_int (-180))
           (Float.of_int 3) (Float.of_int 50)) in H.
  - vm_compute in H. discriminate H.
  - reflexivity.
  - reflexivity.
Defined.

(** X20: without a usable key the endpoint still answers: the reply
    carries the label and the years of the calculator and the fixed
    message in place of the analysis, and nothing is sent. *)
Theorem endpoint_without_key (str : float -> string) (sc : pyval -> option string)
    (w : world) (lat lon solar aqi : float) :
  in_range (-90) 90 lat = true -> in_range (-180) 180 lon = true ->
  truthy (environ w !! "GEMINI_API_KEY") = false ->
  exists r : LivabilityResult,
    endpoint str sc w {| q_lat := Some lat; q_lon := Some lon;
                         q_solar := Some solar; q_aqi := Some aqi |}
    = (Replied200 r, []) /\
    gemini_analysis r = "GEMINI_API_KEY not set. Skipping AI analysis."%string /\
    (calculated_livability_score r, estimated_habitable_years r)
      = calculate_livability_score solar aqi.
Proof.
  intros Hlat Hlon Hk.
  rewrite (endpoint_accepts str sc w lat lon solar aqi Hlat Hlon).
  pose proof (handler_fields str sc calculate_livability_score w lat lon solar aqi)
    as Hf.
  unfold get_livability_score. rewrite handler_result in *.
  rewrite (ask_without_usable_key str w lat lon solar aqi None Hk) in *.
  cbn [fst snd] in *.
  destruct (init_str sc lat lon solar aqi
              (calculate_livability_score solar aqi).1
              (calculate_livability_score solar aqi).2 no_key_message)
    as (r & Hr & Hg).
  rewrite Hr in *. exists r.
  destruct (Hf r eq_refl) as (_ & _ & _ & _ & Hc & _). auto.
Qed.

(** X20 at solar 5 and index 0, without key. *)
Lemma endpoint_without_key_witness :
  exists r : LivabilityResult,
    endpoint sample_str refuse_scalars world_without_key
      {| q_lat := Some (Float.of_int 45); q_lon := Some (Float.of_int 9);
         q_solar := Some (Float.of_int 5); q_aqi := Some (Float.of_int 0) |}
    = (Replied200 r, []) /\
    gemini_analysis r = "GEMINI_API_KEY not set. Skipping AI analysis."%string.
Proof.
  destruct (endpoint_without_key sample_str refuse_scalars world_without_key
              (Float.of_int 45) (Float.of_int 9) (Float.of_int 5) (Float.of_int 0))
    as (r & H1 & H2 & _).
  - vm_compute. reflexivity.
  - vm_compute. reflexivity.
  - reflexivity.
  - exists r. split; [exact H1 | exact H2].
Defined.

(** X21: a failure of the outbound call is not a failure of the
    endpoint: when the [try] block raises, the reply is still a 200
    with the label and the years of the calculator; the failure text
    takes the place of the analysis, and the one request was sent. *)
Theorem endpoint_survives_failure (str : float -> string)
    (sc : pyval -> option string) (w : world) (key : string)
    (lat lon solar aqi : float) (e : exn) :
  in_range (-90) 90 lat = true -> in_range (-180) 180 lon = true ->
  environ w !! "GEMINI_API_KEY" = Some key -> key <> EmptyString ->
  try_block w (build_request str key lat lon solar aqi None) = inr e ->
  exists r : LivabilityResult,
    endpoint str sc w {| q_lat := Some lat; q_lon := Some lon;
                         q_solar := Some solar; q_aqi := Some aqi |}
    = (Replied200 r, [build_request str key lat lon solar aqi None]) /\
    gemini_analysis r = failure_prefix +:+ e /\
    (calculated_livability_score r, estimated_habitable_years r)
      = calculate_livability_score solar aqi.
Proof.
  intros Hlat Hlon Hk Hne He.
  rewrite (endpoint_accepts str sc w lat lon solar aqi Hlat Hlon).
  pose proof (handler_fields str sc calculate_livability_score w lat lon solar aqi)
    as Hf.
  unfold get_livability_score. rewrite handler_result in *.
  rewrite (ask_with_key str w key) in *; auto. rewrite He in *.
  cbn [fst snd] in *.
  destruct (init_str sc lat lon solar aqi
              (calculate_livability_score solar aqi).1
              (calculate_livability_score solar aqi).2 (failure_prefix +:+ e))
    as (r & Hr & Hg).
  rewrite Hr in *. exists r.
  destruct (Hf r eq_refl) as (_ & _ & _ & _ & Hc & _). auto.
Qed.

(** X21 on a network that times out. *)
Lemma endpoint_survives_failure_witness :
  let w := {| environ := {[ "GEMINI_API_KEY" := "secret" ]};
              network := fun _ => PostRaised "timed out" |} in
  exists r : LivabilityResult,
    fst (endpoint sample_str refuse_scalars w
           {| q_lat := Some (Float.of_int 45); q_lon := Some (Float.of_int 9);
              q_solar := Some (Float.of_int 5); q_aqi := Some (Float.of_int 0) |})
    = Replied200 r /\
    gemini_analysis r = "Failed to get Gemini AI analysis: timed out"%string /\
    (calculated_livability_score r, estimated_habitable_years r) = ("High"%string, 80).
Proof.
  intros w.
  destruct (endpoint_survives_failure sample_str refuse_scalars w "secret"
              (Float.of_int 45) (Float.of_int 9) (Float.of_int 5) (Float.of_int 0)
              "timed out") as (r & H1 & H2 & H3).
  - vm_compute. reflexivity.
  - vm_compute. reflexivity.
  - reflexivity.
  - discriminate.
  - reflexivity.
  - exists r. rewrite H1. split; [reflexivity|]. split; [exact H2|].
    rewrite H3. vm_compute. reflexivity.
Defined.

(** X22: one inbound request causes at most one outbound request:
    none when it is rejected, none when it is answered without a usable
    key, exactly one when it is answered with a key, and exactly one
    when the construction of the reply fails. *)
Theorem outbound_request_count (str : float -> string) (sc : pyval -> option string)
    (w : world) (q : query) :
  length (snd (endpoint str sc w q))
  = match fst (endpoint str sc w q) with
    | Rejected422 => 0%nat
    | Replied200 _ => if truthy (environ w !! "GEMINI_API_KEY") then 1%nat else 0%nat
    | Failed500 => 1%nat
    end.
Proof.
  unfold endpoint, route.
  destruct (q_lat q) as [lat|], (q_lon q) as [lon|], (q_solar q) as [solar|],
    (q_aqi q) as [aqi|]; try reflexivity.
  destruct (in_range (-90) 90 lat && in_range (-180) 180 lon); [|reflexivity].
  pose proof (handler_sent str sc calculate_livability_score w lat lon solar aqi)
    as Hsent.
  pose proof (handler_result str sc calculate_livability_score w lat lon solar aqi)
    as Hres.
  fold (get_livability_score str sc) in Hsent, Hres.
  destruct (get_livability_score str sc w lat lon solar aqi) as [[m|e] sent];
    cbn [fst snd] in *; rewrite Hsent, ask_sent_length; [reflexivity|].
  destruct (truthy (environ w !! "GEMINI_API_KEY")) eqn:Hk; [reflexivity|].
  rewrite (ask_without_usable_key str w lat lon solar aqi None Hk) in Hres.
  discriminate Hres.
Qed.

(** X23: the verdict of the boundary layer and the computed part of the
    reply do not depend on the environment nor on the network: in two
    worlds the same request is rejected in both or in neither, and two
    replies to it agree on the four echoed parameters, on the label and
    on the years. *)
Theorem reply_independent_of_world (str : float -> string)
    (sc : pyval -> option string) (w w' : world) (q : query) :
  (fst (endpoint str sc w q) = Rejected422
   <-> fst (endpoint str sc w' q) = Rejected422) /\
  (forall r r' : LivabilityResult,
     fst (endpoint str sc w q) = Replied200 r ->
     fst (endpoint str sc w' q) = Replied200 r' ->
     location_latitude r = location_latitude r' /\
     location_longitude r = location_longitude r' /\
     solar_radiation_score r = solar_radiation_score r' /\
     air_quality_index r = air_quality_index r' /\
     calculated_livability_score r = calculated_livability_score r' /\
     estimated_habitable_years r = estimated_habitable_years r').
Proof.
  unfold endpoint, route.
  destruct (q_lat q) as [lat|], (q_lon q) as [lon|], (q_solar q) as [solar|],
    (q_aqi q) as [aqi|]; try (split; [tauto | discriminate]).
  destruct (in_range (-90) 90 lat && in_range (-180) 180 lon);
    [|split; [tauto | discriminate]].
  pose proof (handler_fields str sc calculate_livability_score w lat lon solar aqi)
    as Hf.
  pose proof (handler_fields str sc calculate_livability_score w' lat lon solar aqi)
    as Hf'.
  fold (get_livability_score str sc) in Hf, Hf'.
  destruct (get_livability_score str sc w lat lon solar aqi) as [[m|e] sent],
    (get_livability_score str sc w' lat lon solar aqi) as [[m'|e'] sent'];
    cbn [fst] in *; (split; [split; discriminate|]); intros r r' Hr Hr';
    try discriminate.
  injection Hr as ->. injection Hr' as ->.
  destruct (Hf r eq_refl) as (H1 & H2 & H3 & H4 & H5 & _).
  destruct (Hf' r' eq_refl) as (H1' & H2' & H3' & H4' & H5' & _).
  rewrite <- H5' in H5. injection H5 as H5 H6.
  rewrite H1, H2, H3, H4, H1', H2', H3', H4'. auto 10.
Qed.

(** X23 on a request answered with a key and without one: the two
    replies differ in the analysis only. *)
Lemma reply_independent_of_world_witness :
  let q := {| q_lat := Some (Float.of_int 45); q_lon := Some (Float.of_int 9);
              q_solar := Some (Float.of_int 5); q_aqi := Some (Float.of_int 0) |} in
  exists r r' : LivabilityResult,
    fst (endpoint sample_str refuse_scalars (world_answering sample_document) q)
    = Replied200 r /\
    fst (endpoint sample_str refuse_scalars world_without_key q) = Replied200 r' /\
    gemini_analysis r = "Plant trees."%string /\
    gemini_analysis r' = "GEMINI_API_KEY not set. Skipping AI analysis."%string /\
    calculated_livability_score r = calculated_livability_score r' /\
    estimated_habitable_years r = estimated_habitable_years r'.
Proof.
  intros q.
  pose proof (proj2 (reply_independent_of_world sample_str refuse_scalars
                       (world_answering sample_document) world_without_key q)) as H.
  pose (mk := fun text : string =>
          {| location_latitude := Float.of_int 45;
             location_longitude := Float.of_int 9;
             solar_radiation_score := Float.of_int 5;
             air_quality_index := Float.of_int 0;
             calculated_livability_score := "High";
             estimated_habitable_years := 80;
             gemini_analysis := text;
             data_source := "Solar Radiation + AQI dataset + Eco Prediction Insight" |}).
  exists (mk "Plant trees."%string),
         (mk "GEMINI_API_KEY not set. Skipping AI analysis."%string).
  assert (fst (endpoint sample_str refuse_scalars (world_answering sample_document) q)
          = Replied200 (mk "Plant trees."%string)) as H1
    by (vm_compute; reflexivity).
  assert (fst (endpoint sample_str refuse_scalars world_without_key q)
          = Replied200 (mk "GEMINI_API_KEY not set. Skipping AI analysis."%string)) as H2
    by (vm_compute; reflexivity).
  split; [exact H1|]. split; [exact H2|].
  split; [reflexivity|]. split; [reflexivity|].
  destruct (H _ _ H1 H2) as (_ & _ & _ & _ & H5 & H6).
  split; [exact H5 | exact H6].
Defined.

(** X25: an analysis that is not a string is fatal to the reply: when
    the value extracted from a 2xx answer is [None], a list or a dict,
    the construction of the reply model raises after the request was
    sent, and the outcome is a 500 instead of a reply. *)
Theorem unusable_analysis_fails_reply (str : float -> string)
    (sc : pyval -> option string) (w : world) (key : string)
    (lat lon solar aqi : float) (doc v : pyval) :
  in_range (-90) 90 lat = true -> in_range (-180) 180 lon = true ->
  environ w !! "GEMINI_API_KEY" = Some key -> key <> EmptyString ->
  answers w (build_request str key lat lon solar aqi None) doc ->
  extract_text doc = inl v ->
  v = PNone \/ (exists l, v = PList l) \/ (exists d, v = PDict d) ->
  endpoint str sc w {| q_lat := Some lat; q_lon := Some lon;
                       q_solar := Some solar; q_aqi := Some aqi |}
  = (Failed500, [build_request str key lat lon solar aqi None]).
Proof.
  intros Hlat Hlon Hk Hne Ha He Hv.
  rewrite (endpoint_accepts str sc w lat lon solar aqi Hlat Hlon).
  unfold get_livability_score. rewrite handler_result.
  rewrite (ask_with_key str w key); auto.
  rewrite (try_block_answers _ _ _ Ha), He. cbn [fst snd].
  destruct Hv as [->|[(l & ->)|(d & ->)]]; reflexivity.
Qed.

(** X25 on an answer whose text is [null]. *)
Lemma unusable_analysis_fails_reply_witness :
  let doc := PDict {[ "candidates" :=
               PList [PDict {[ "content" :=
                 PDict {[ "parts" := PList [PDict {[ "text" := PNone ]}] ]} ]}] ]} in
  fst (endpoint sample_str refuse_scalars (world_answering doc)
         {| q_lat := Some (Float.of_int 45); q_lon := Some (Float.of_int 9);
            q_solar := Some (Float.of_int 5); q_aqi := Some (Float.of_int 0) |})
  = Failed500.
Proof.
  intros doc.
  rewrite (unusable_analysis_fails_reply sample_str refuse_scalars (world_answering doc)
             "secret" (Float.of_int 45) (Float.of_int 9) (Float.of_int 5)
             (Float.of_int 0) doc PNone).
  - reflexivity.
  - vm_compute. reflexivity.
  - vm_compute. reflexivity.
  - reflexivity.
  - discriminate.
  - eexists. split; [reflexivity|]. split; reflexivity.
  - reflexivity.
  - left. reflexivity.
Defined.
